(** * document-editor: the indent ruler and the pagination estimator

    A shallow embedding of [src/app/page.js]: the [clamp] helper, the
    indent model of [Ruler] ([setFromDrag]), the pointer handlers of the
    ruler's drag session, what the ruler draws ([positions], the bands of
    the track, [majorTicks], [formatInches]) and what it reads back from
    the editor ([syncFromSelection]), the pagination estimator of [Home]
    ([updatePagination]) with the events that trigger it and the cleanups
    of its effects, the font-size buttons, [PageInfo], and the
    [setIndentRuler] command of the [IndentRuler] extension.

    JavaScript numbers are IEEE-754 binary64 values.  The arithmetic of the
    program is written once, over the interface [JSNumber], and read in two
    ways: [Binary64] evaluates it on Rocq's primitive binary64 floats, bit
    for bit as a JavaScript engine does; [Exact] evaluates it on rationals,
    which is what the program computes whenever no operation rounds (pixel
    coordinates are small dyadic numbers, for which sums and differences
    are exact).  General statements are proved for [Exact]; concrete runs
    are evaluated in both. *)

From Stdlib Require Import ZArith QArith Qround Qminmax Qabs Lqa Lia.
From Stdlib Require Import Floats Uint63.
From stdpp Require Import base gmap strings list pretty.

Set Warnings "-register-all".

(** ** JavaScript numbers *)

Class JSNumber (N : Type) := {
  num : Z -> N;                 (* an integer literal *)
  add : N -> N -> N;
  sub : N -> N -> N;
  mul : N -> N -> N;
  div : N -> N -> N;
  Math_max : N -> N -> N;
  Math_min : N -> N -> N;
  Math_round : N -> N;
  Math_ceil : N -> N;
  Math_floor : N -> N;
  truthy : N -> bool            (* ToBoolean: false for 0, -0 and NaN *)
}.

(** *** Exact reading *)

Module Exact.

(** [Math.round] rounds to the nearest integer, halves towards +infinity. *)
Definition round (x : Q) : Z := Qfloor (x + (1 # 2)).

#[global] Instance exact_number : JSNumber Q := {|
  num := inject_Z;
  add := Qplus;
  sub := Qminus;
  mul := Qmult;
  div := Qdiv;
  Math_max := Qmax;
  Math_min := Qmin;
  Math_round := fun x => inject_Z (round x);
  Math_ceil := fun x => inject_Z (Qceiling x);
  Math_floor := fun x => inject_Z (Qfloor x);
  truthy := fun x => negb (Qeq_bool x 0)
|}.

End Exact.

(** A whole number (of pixels). *)
Definition whole (q : Q) : Prop := (inject_Z (Qfloor q) == q)%Q.

(** *** Binary64 reading *)

Module Binary64.

Definition of_Z (z : Z) : float :=
  if (z <? 0)%Z then (- of_uint63 (Uint63.of_Z (- z)))%float
  else of_uint63 (Uint63.of_Z z).

(** The rational a finite, non-zero float stands for: (-1)^s * m * 2^e. *)
Definition value (s : bool) (m : positive) (e : Z) : Q :=
  let z := if s then Zneg m else Zpos m in
  if (0 <=? e)%Z then inject_Z (z * 2 ^ e)
  else Qmake z (Z.to_pos (2 ^ (- e))).

(** An integer result keeps the sign of the argument when it is zero
    ([Math.ceil(-0.5)] and [Math.round(-0.2)] are [-0]). *)
Definition integral (x : float) (z : Z) : float :=
  if (z =? 0)%Z then (if PrimFloat.get_sign x then neg_zero else zero) else of_Z z.

(** [Math.floor], [Math.ceil] and [Math.round]: zeros, infinities, NaN
    and floats with a non-negative exponent (already integers) are
    returned as they are; the others are below 2^53 in magnitude, and
    their integer part is computed on the exact value. *)
Definition to_integer (f : Q -> Z) (x : float) : float :=
  match Prim2SF x with
  | S754_finite s m e =>
      if (0 <=? e)%Z then x else integral x (f (value s m e))
  | _ => x
  end.

Definition max (a b : float) : float :=
  if PrimFloat.is_nan a || PrimFloat.is_nan b then nan
  else if (a <? b)%float then b
  else if (b <? a)%float then a
  else if PrimFloat.get_sign a then b else a.

Definition min (a b : float) : float :=
  if PrimFloat.is_nan a || PrimFloat.is_nan b then nan
  else if (a <? b)%float then a
  else if (b <? a)%float then b
  else if PrimFloat.get_sign a then a else b.

#[global] Instance binary64_number : JSNumber float := {|
  num := of_Z;
  add := PrimFloat.add;
  sub := PrimFloat.sub;
  mul := PrimFloat.mul;
  div := PrimFloat.div;
  Math_max := max;
  Math_min := min;
  Math_round := to_integer Exact.round;
  Math_ceil := to_integer Qceiling;
  Math_floor := to_integer Qfloor;
  truthy := fun x => negb (PrimFloat.is_zero x || PrimFloat.is_nan x)
|}.

End Binary64.

(** ** Geometry utilities *)

Section Geometry.
Context {N : Type} `{JSNumber N}.

(** [function clamp(value, min, max)] *)
Definition clamp (value min max : N) : N :=
  Math_min max (Math_max min value).

End Geometry.

(** ** The ruler *)

Module Ruler.

(** The marker being dragged: ["left"], ["firstLine"] or ["right"]. *)
Inductive Marker := mLeft | mFirstLine | mRight.

Section Model.
Context {N : Type} `{JSNumber N}.

(** The object [next] of [setFromDrag]; the three [useState] cells
    [leftIndent], [rightIndent] and [firstLineIndent] hold one. *)
Record IndentState := {
  leftIndent : N;
  rightIndent : N;
  firstLineIndent : N
}.

Definition minGap : N := num 12.
Definition pxPerInch : N := num 96.

(** The value of [next] at the end of [setFromDrag(type, absoluteX)],
    from the state cells [trackWidth], [leftIndent], [rightIndent] and
    [firstLineIndent] the callback closes over.  The handlers pass one of
    the three marker names for [type]. *)
Definition setFromDrag_next (trackWidth : N) (s : IndentState)
    (type : Marker) (absoluteX : N) : IndentState :=
  let width := if truthy trackWidth then trackWidth else num 0 in
  let rightEdgeX := sub width (rightIndent s) in
  let currentFirstLineX := add (leftIndent s) (firstLineIndent s) in
  match type with
  | mLeft =>
      let maxLeftX := Math_max (num 0) (sub rightEdgeX minGap) in
      let newLeftX := clamp absoluteX (num 0) maxLeftX in
      let minFirstLineX := num 0 in
      let maxFirstLineX :=
        Math_max minFirstLineX (sub width (rightIndent s)) in
      let newFirstLineX :=
        clamp currentFirstLineX minFirstLineX maxFirstLineX in
      {| leftIndent := Math_round newLeftX;
         rightIndent := rightIndent s;
         firstLineIndent := Math_round (sub newFirstLineX newLeftX) |}
  | mFirstLine =>
      let minFirstLineX := num 0 in
      let maxFirstLineX :=
        Math_max minFirstLineX (sub width (rightIndent s)) in
      let newFirstLineX := clamp absoluteX minFirstLineX maxFirstLineX in
      {| leftIndent := leftIndent s;
         rightIndent := rightIndent s;
         firstLineIndent := Math_round (sub newFirstLineX (leftIndent s)) |}
  | mRight =>
      let minRightX := Math_min width (add (leftIndent s) minGap) in
      let newRightX := clamp absoluteX minRightX width in
      let next_rightIndent := Math_round (sub width newRightX) in
      let nextRightEdgeX := sub width next_rightIndent in
      let minFirstLineX := num 0 in
      let maxFirstLineX := Math_max minFirstLineX nextRightEdgeX in
      let newFirstLineX :=
        clamp currentFirstLineX minFirstLineX maxFirstLineX in
      {| leftIndent := leftIndent s;
         rightIndent := next_rightIndent;
         firstLineIndent := Math_round (sub newFirstLineX (leftIndent s)) |}
  end.

(** [dragStateRef.current] *)
Record DragState := {
  type : option Marker;
  pointerId : option Z
}.

(** What [getBoundingClientRect()] of the track element gives. *)
Record DOMRect := {
  rect_left : N;
  rect_width : N
}.

Record PointerEvent := {
  event_pointerId : Z;
  clientX : N
}.

(** The state of one [Ruler]: its refs, its [useState] cells, the
    pointer the marker button captured, and the editor, seen as the
    list of attribute updates it was sent ([None]: no editor yet). *)
Record State := {
  trackRef : option DOMRect;
  dragStateRef : DragState;
  isDraggingRef : bool;
  trackWidth : N;
  indent : IndentState;
  activeDragType : option Marker;
  pointerCapture : option Z;
  editor : option (list IndentState)
}.

Definition initial (track : option DOMRect)
    (ed : option (list IndentState)) : State :=
  {| trackRef := track;
     dragStateRef := {| type := None; pointerId := None |};
     isDraggingRef := false;
     trackWidth := num 0;
     indent := {| leftIndent := num 0; rightIndent := num 0;
                  firstLineIndent := num 0 |};
     activeDragType := None;
     pointerCapture := None;
     editor := ed |}.

(** [applyToEditor(next)]: one chained [updateAttributes] request for
    paragraphs and headings, when there is an editor. *)
Definition applyToEditor (next : IndentState) (st : State) : State :=
  match editor st with
  | None => st
  | Some sent =>
      {| trackRef := trackRef st;
         dragStateRef := dragStateRef st;
         isDraggingRef := isDraggingRef st;
         trackWidth := trackWidth st;
         indent := indent st;
         activeDragType := activeDragType st;
         pointerCapture := pointerCapture st;
         editor := Some (sent ++ [next]) |}
  end.

(** The track-width effect: [setTrackWidth(rect.width)], run at mount
    and by the [ResizeObserver] of the track. *)
Definition update (st : State) : State :=
  match trackRef st with
  | None => st
  | Some rect =>
      {| trackRef := trackRef st;
         dragStateRef := dragStateRef st;
         isDraggingRef := isDraggingRef st;
         trackWidth := rect_width rect;
         indent := indent st;
         activeDragType := activeDragType st;
         pointerCapture := pointerCapture st;
         editor := editor st |}
  end.

Definition getRelativeX (event : PointerEvent) (st : State) : N :=
  match trackRef st with
  | None => num 0
  | Some rect => sub (clientX event) (rect_left rect)
  end.

Definition setFromDrag (ty : Marker) (absoluteX : N) (st : State) : State :=
  let next := setFromDrag_next (trackWidth st) (indent st) ty absoluteX in
  applyToEditor next
    {| trackRef := trackRef st;
       dragStateRef := dragStateRef st;
       isDraggingRef := isDraggingRef st;
       trackWidth := trackWidth st;
       indent := next;
       activeDragType := activeDragType st;
       pointerCapture := pointerCapture st;
       editor := editor st |}.

Definition handleMarkerPointerDown (ty : Marker) (event : PointerEvent)
    (st : State) : State :=
  match trackRef st with
  | None => st
  | Some _ =>
      setFromDrag ty (getRelativeX event st)
        {| trackRef := trackRef st;
           dragStateRef := {| type := Some ty;
                              pointerId := Some (event_pointerId event) |};
           isDraggingRef := true;
           trackWidth := trackWidth st;
           indent := indent st;
           activeDragType := Some ty;
           pointerCapture := Some (event_pointerId event);
           editor := editor st |}
  end.

(** [pointerId !== event.pointerId] *)
Definition other_pointer (d : DragState) (event : PointerEvent) : bool :=
  match pointerId d with
  | Some p => negb (p =? event_pointerId event)%Z
  | None => true
  end.

Definition handleMarkerPointerMove (event : PointerEvent) (st : State) : State :=
  match type (dragStateRef st) with
  | None => st
  | Some ty =>
      if other_pointer (dragStateRef st) event then st
      else setFromDrag ty (getRelativeX event st) st
  end.

(** Also the [onPointerCancel] handler. *)
Definition handleMarkerPointerUp (event : PointerEvent) (st : State) : State :=
  if other_pointer (dragStateRef st) event then st
  else
    {| trackRef := trackRef st;
       dragStateRef := {| type := None; pointerId := None |};
       isDraggingRef := false;
       trackWidth := trackWidth st;
       indent := indent st;
       activeDragType := None;
       pointerCapture := pointerCapture st;
       editor := editor st |}.

(** No drag session: the state between a pointer-up and the next
    pointer-down. *)
Definition idle (st : State) : Prop :=
  dragStateRef st = {| type := None; pointerId := None |}
  /\ isDraggingRef st = false
  /\ activeDragType st = None.

End Model.

Arguments IndentState N : clear implicits.
Arguments DragState : clear implicits.
Arguments DOMRect N : clear implicits.
Arguments PointerEvent N : clear implicits.
Arguments State N : clear implicits.

(** The gap the data model asks for between the left and the right
    marker, on a track of width [W]. *)
Definition gap (W : Q) (s : IndentState Q) : Prop :=
  (leftIndent s <= W - rightIndent s - 12)%Q.

End Ruler.

(** ** The page: pagination estimator and its triggers *)

Module Home.

(** What can happen to the page: the container is scrolled, the editor
    reports a document update or a selection update, the container is
    resized.  Listeners are registered under these names. *)
Inductive Trigger :=
  ContainerScroll | EditorUpdate | EditorSelectionUpdate | ContainerResize.

(** The two closures the effects register; both call [updatePagination]. *)
Inductive Handler := handleScroll | handleUpdate.

Definition Trigger_eqb (a b : Trigger) : bool :=
  match a, b with
  | ContainerScroll, ContainerScroll
  | EditorUpdate, EditorUpdate
  | EditorSelectionUpdate, EditorSelectionUpdate
  | ContainerResize, ContainerResize => true
  | _, _ => false
  end.

Section Model.
Context {N : Type} `{JSNumber N}.

(** The measurements of the scroll container [editorRef.current]. *)
Record Container := {
  scrollHeight : N;
  scrollTop : N
}.

Record State := {
  editorRef : option Container;
  devicePixelRatio : N;               (* window.devicePixelRatio *)
  pageCount : N;
  currentPage : N;
  editor : bool;                      (* [useEditor] has produced one *)
  listeners : list (Trigger * Handler)
}.

Definition initial (container : option Container) (dpr : N) : State :=
  {| editorRef := container;
     devicePixelRatio := dpr;
     pageCount := num 1;
     currentPage := num 1;
     editor := false;
     listeners := [] |}.

Definition pageHeightInches : N := num 11.

Definition pageHeightPx (dpr : N) : N :=
  div (mul (mul pageHeightInches dpr) (num 96)) dpr.

(** The pair [(newPageCount, current)] of [updatePagination]. *)
Definition estimate (dpr : N) (container : Container) : N * N :=
  let newPageCount :=
    Math_max (num 1)
      (Math_ceil (div (scrollHeight container) (pageHeightPx dpr))) in
  let viewportTop := scrollTop container in
  let current :=
    Math_min newPageCount
      (Math_max (num 1)
         (add (Math_floor (div viewportTop (pageHeightPx dpr))) (num 1))) in
  (newPageCount, current).

Definition updatePagination (st : State) : State :=
  match editorRef st with
  | None => st
  | Some container =>
      let '(newPageCount, current) :=
        estimate (devicePixelRatio st) container in
      {| editorRef := editorRef st;
         devicePixelRatio := devicePixelRatio st;
         pageCount := newPageCount;
         currentPage := current;
         editor := editor st;
         listeners := listeners st |}
  end.

Definition addListener (t : Trigger) (h : Handler) (st : State) : State :=
  {| editorRef := editorRef st;
     devicePixelRatio := devicePixelRatio st;
     pageCount := pageCount st;
     currentPage := currentPage st;
     editor := editor st;
     listeners := listeners st ++ [(t, h)] |}.

(** First effect: [container.addEventListener("scroll", handleScroll)]
    and a first [updatePagination()]. *)
Definition scrollEffect (st : State) : State :=
  match editorRef st with
  | None => st
  | Some _ => updatePagination (addListener ContainerScroll handleScroll st)
  end.

(** Second effect: [editor.on("update", handleUpdate)] and
    [editor.on("selectionUpdate", handleUpdate)]. *)
Definition editorEffect (st : State) : State :=
  if editor st then
    addListener EditorSelectionUpdate handleUpdate
      (addListener EditorUpdate handleUpdate st)
  else st.

(** Mount: both effects run (the editor is not there yet:
    [immediatelyRender: false]). *)
Definition mount (st : State) : State := editorEffect (scrollEffect st).

(** The editor arrives; the second effect runs again. *)
Definition editorCreated (st : State) : State :=
  editorEffect
    {| editorRef := editorRef st;
       devicePixelRatio := devicePixelRatio st;
       pageCount := pageCount st;
       currentPage := currentPage st;
       editor := true;
       listeners := listeners st |}.

Definition run (h : Handler) (st : State) : State :=
  match h with
  | handleScroll => updatePagination st
  | handleUpdate => updatePagination st
  end.

(** Delivering a trigger runs the listeners registered for it, in
    registration order. *)
Definition notify (t : Trigger) (st : State) : State :=
  fold_left
    (fun acc l => if Trigger_eqb (fst l) t then run (snd l) acc else acc)
    (listeners st) st.

(** An event: the browser or the editor first changes what the
    container measures, then notifies. *)
Inductive Event :=
| Scrolled (top : N)
| Updated (c : Container)
| SelectionUpdated
| Resized (c : Container).

Definition trigger (e : Event) : Trigger :=
  match e with
  | Scrolled _ => ContainerScroll
  | Updated _ => EditorUpdate
  | SelectionUpdated => EditorSelectionUpdate
  | Resized _ => ContainerResize
  end.

Definition setContainer (c : option Container) (st : State) : State :=
  {| editorRef := c;
     devicePixelRatio := devicePixelRatio st;
     pageCount := pageCount st;
     currentPage := currentPage st;
     editor := editor st;
     listeners := listeners st |}.

Definition measure (e : Event) (st : State) : State :=
  match e, editorRef st with
  | Scrolled top, Some c =>
      setContainer
        (Some {| scrollHeight := scrollHeight c; scrollTop := top |}) st
  | Updated c, Some _ => setContainer (Some c) st
  | Resized c, Some _ => setContainer (Some c) st
  | _, _ => st
  end.

Definition handle (e : Event) (st : State) : State :=
  notify (trigger e) (measure e st).

(** The listeners once both effects have run with an editor. *)
Definition wired (st : State) : Prop :=
  listeners st = [(ContainerScroll, handleScroll);
                  (EditorUpdate, handleUpdate);
                  (EditorSelectionUpdate, handleUpdate)].

(** The badge shows what the estimator gives for the container as it
    is now. *)
Definition in_sync (st : State) : Prop :=
  match editorRef st with
  | None => True
  | Some c =>
      (pageCount st, currentPage st) = estimate (devicePixelRatio st) c
  end.

End Model.

Arguments Container N : clear implicits.
Arguments State N : clear implicits.
Arguments Event N : clear implicits.

End Home.

(** ** The [IndentRuler] extension

    [setIndentRuler] is written against the document model of the editing
    engine (ProseMirror, through Tiptap).  The part of that interface the
    command uses is modelled first, after the engine's reference manual:
    token positions, [Node.nodeAt], [ResolvedPos.node] and
    [ResolvedPos.before], [NodeType.create] and [Transform.setNodeMarkup]. *)

Module ProseMirror.

Inductive Value :=
| VNull
| VNum (n : Q)
| VStr (s : string).

(** A text node, or a node of a named type with attributes, marks and
    content. *)
Inductive Node :=
| Text (text : string) (marks : list string)
| Elem (type : string) (attrs : gmap string Value) (marks : list string)
       (content : list Node).

(** What the schema says of a node type: its attributes, each with its
    default if it has one, and whether it is a leaf (admits no content). *)
Record NodeSpec := {
  spec_attrs : list (string * option Value);
  spec_leaf : bool
}.

Inductive Result (A : Type) :=
| Ok (a : A)
| Throw (error : string).
Arguments Ok {A} a.
Arguments Throw {A} error.

#[global] Instance Result_bind : MBind Result := fun A B k r =>
  match r with
  | Ok a => k a
  | Throw e => Throw e
  end.

Definition typeName (n : Node) : string :=
  match n with
  | Text _ _ => "text"
  | Elem t _ _ _ => t
  end.

Definition isText (n : Node) : bool :=
  match n with
  | Text _ _ => true
  | Elem _ _ _ _ => false
  end.

Definition nodeAttrs (n : Node) : gmap string Value :=
  match n with
  | Text _ _ => ∅
  | Elem _ a _ _ => a
  end.

Definition nodeMarks (n : Node) : list string :=
  match n with
  | Text _ m => m
  | Elem _ _ m _ => m
  end.

Definition nodeContent (n : Node) : list Node :=
  match n with
  | Text _ _ => []
  | Elem _ _ _ c => c
  end.

Inductive Step :=
| ReplaceStep (from to : nat) (insert : Node)
| ReplaceAroundStep (from to gapFrom gapTo : nat) (insert : Node).

Record Transaction := {
  doc : Node;
  steps : list Step
}.

(** A resolved position: the position and, for each depth from the root
    down, the ancestor at that depth, the index into it and the position
    at which the child at that index starts. *)
Record ResolvedPos := {
  pos : nat;
  path : list (Node * nat * nat)
}.

Definition depth (r : ResolvedPos) : nat := (length (path r) - 1)%nat.

(** [$pos.node(depth)] *)
Definition node (r : ResolvedPos) (d : nat) : option Node :=
  match path r !! d with
  | Some (n, _, _) => Some n
  | None => None
  end.

(** [$pos.before(depth)]: the position directly before the wrapping node
    at the given depth or, when [depth] is [$pos.depth + 1], the original
    position.  (Beyond [$pos.depth + 1] the library reads past the end of
    the path; the command never asks for that.) *)
Definition before (r : ResolvedPos) (d : nat) : Result nat :=
  if (d =? 0)%nat then Throw "There is no position before the top-level node"
  else if (d =? depth r + 1)%nat then Ok (pos r)
  else match path r !! (d - 1)%nat with
       | Some (_, _, start) => Ok start
       | None => Throw "depth out of range"
       end.

Section Schema.
Variable schema : string -> NodeSpec.

Definition isLeaf (n : Node) : bool :=
  match n with
  | Text _ _ => true
  | Elem t _ _ _ => spec_leaf (schema t)
  end.

(** Text counts one token per character, a leaf one token, any other
    node its content and two tokens, for its start and its end. *)
Fixpoint nodeSize (n : Node) : nat :=
  match n with
  | Text s _ => String.length s
  | Elem t _ _ content =>
      if spec_leaf (schema t) then 1%nat
      else
        (2 + (fix sizes (cs : list Node) : nat :=
                match cs with
                | [] => 0
                | c :: rest => nodeSize c + sizes rest
                end) content)%nat
  end.

Definition contentSize (n : Node) : nat :=
  match isLeaf n with
  | true => 0%nat
  | false => (nodeSize n - 2)%nat
  end.

(** [node.nodeAt(pos)]: the node directly after the position, if any;
    inside a text node, that text node. *)
Fixpoint nodeAt (n : Node) (p : nat) : option Node :=
  match n with
  | Text _ _ => None
  | Elem _ _ _ content =>
      (fix scan (cs : list Node) (curPos : nat) : option Node :=
         match cs with
         | [] => None
         | c :: rest =>
             let end_ := (curPos + nodeSize c)%nat in
             if (p <? end_)%nat then
               if (curPos =? p)%nat || isText c then Some c
               else nodeAt c (p - curPos - 1)%nat
             else scan rest end_
         end) content 0%nat
  end.

(** The path of [doc.resolve(pos)]. *)
Fixpoint resolvePath (n : Node) (start parentOffset : nat)
    : list (Node * nat * nat) :=
  match n with
  | Text _ _ => []
  | Elem _ _ _ content =>
      (fix scan (cs : list Node) (index curPos : nat)
           : list (Node * nat * nat) :=
         match cs with
         | [] => [(n, index, (start + curPos)%nat)]
         | c :: rest =>
             let end_ := (curPos + nodeSize c)%nat in
             if (parentOffset <? end_)%nat then
               if (parentOffset =? curPos)%nat || isText c
               then [(n, index, (start + curPos)%nat)]
               else (n, index, (start + curPos)%nat)
                      :: resolvePath c (start + curPos + 1)%nat
                           (parentOffset - curPos - 1)%nat
             else scan rest (S index) end_
         end) content 0%nat 0%nat
  end.

Definition resolve (d : Node) (p : nat) : Result ResolvedPos :=
  if (p <=? contentSize d)%nat
  then Ok {| pos := p; path := resolvePath d 0 p |}
  else Throw "Position out of range".

(** [computeAttrs]: the attributes of the type, each with the value
    given or else its default. *)
Fixpoint computeAttrs (spec : list (string * option Value))
    (values : gmap string Value) : Result (gmap string Value) :=
  match spec with
  | [] => Ok ∅
  | (name, default) :: rest =>
      built ← computeAttrs rest values;
      match values !! name, default with
      | Some given, _ => Ok (<[name := given]> built)
      | None, Some d => Ok (<[name := d]> built)
      | None, None => Throw "No value supplied for attribute"
      end
  end.

(** [type.create(attrs, null, marks)] *)
Definition create (type : string) (attrs : gmap string Value)
    (marks : list string) : Result Node :=
  if String.eqb type "text"
  then Throw "NodeType.create can't construct text nodes"
  else
    built ← computeAttrs (spec_attrs (schema type)) attrs;
    Ok (Elem type built marks []).

(** The document with the node that starts at position [p] replaced by
    [f] of it. *)
Fixpoint replaceNodeAt (f : Node -> Node) (n : Node) (p : nat) : Node :=
  match n with
  | Text _ _ => n
  | Elem t a m content =>
      Elem t a m
        ((fix scan (cs : list Node) (curPos : nat) : list Node :=
            match cs with
            | [] => []
            | c :: rest =>
                let end_ := (curPos + nodeSize c)%nat in
                if (p <? end_)%nat then
                  (if (curPos =? p)%nat then f c
                   else replaceNodeAt f c (p - curPos - 1)%nat) :: rest
                else c :: scan rest end_
            end) content 0%nat)
  end.

(** [tr.setNodeMarkup(pos, undefined, attrs)]: the node at [pos] keeps
    its type, marks and content and gets the attributes [attrs]: a leaf is
    replaced, any other node is rewrapped around its content (which stays
    valid, the type being the same). *)
Definition setNodeMarkup (tr : Transaction) (p : nat)
    (attrs : gmap string Value) : Result Transaction :=
  match nodeAt (doc tr) p with
  | None => Throw "No node at given position"
  | Some old =>
      newNode ← create (typeName old) attrs (nodeMarks old);
      if isLeaf old then
        Ok {| doc := replaceNodeAt (fun _ => newNode) (doc tr) p;
              steps := steps tr
                ++ [ReplaceStep p (p + nodeSize old) newNode] |}
      else
        Ok {| doc :=
                replaceNodeAt
                  (fun o => Elem (typeName newNode) (nodeAttrs newNode)
                              (nodeMarks newNode) (nodeContent o))
                  (doc tr) p;
              steps := steps tr
                ++ [ReplaceAroundStep p (p + nodeSize old) (p + 1)
                      (p + nodeSize old - 1) newNode] |}
  end.

End Schema.

End ProseMirror.

Module IndentRuler.
Import ProseMirror.

(** [addGlobalAttributes]: three attributes, default 0, on paragraphs and
    headings. *)
Definition globalAttributes : list (string * option Value) :=
  [("leftIndent", Some (VNum 0)); ("rightIndent", Some (VNum 0));
   ("firstLineIndent", Some (VNum 0))].

(** The schema of the editor that [Home] creates: StarterKit with heading
    levels 1 to 3, TextAlign on headings and paragraphs (no default
    alignment), and the global attributes above. *)
Definition schema (type : string) : NodeSpec :=
  if String.eqb type "paragraph" then
    {| spec_attrs := ("textAlign", Some VNull) :: globalAttributes;
       spec_leaf := false |}
  else if String.eqb type "heading" then
    {| spec_attrs := ("level", Some (VNum 1)) :: ("textAlign", Some VNull)
                       :: globalAttributes;
       spec_leaf := false |}
  else if String.eqb type "orderedList" then
    {| spec_attrs := [("start", Some (VNum 1)); ("type", Some VNull)];
       spec_leaf := false |}
  else if String.eqb type "codeBlock" then
    {| spec_attrs := [("language", Some VNull)]; spec_leaf := false |}
  else if String.eqb type "hardBreak" || String.eqb type "horizontalRule"
  then {| spec_attrs := []; spec_leaf := true |}
  else {| spec_attrs := []; spec_leaf := false |}.

(** The argument of the command; a field left out is 0. *)
Record Options := {
  leftIndent : option Value;
  rightIndent : option Value;
  firstLineIndent : option Value
}.

Definition orZero (v : option Value) : Value :=
  match v with
  | Some x => x
  | None => VNum 0
  end.

(** [node.type.name === "paragraph" || node.type.name === "heading"] *)
Definition isTarget (n : Node) : bool :=
  String.eqb (typeName n) "paragraph" || String.eqb (typeName n) "heading".

(** The loop [for (depth = $from.depth; depth >= 0; depth -= 1)]: the
    deepest paragraph or heading among the ancestors, if there is one. *)
Fixpoint findTargetDepth (from : ResolvedPos) (depth : nat) : option nat :=
  let continue :=
    match depth with
    | O => None
    | S d => findTargetDepth from d
    end in
  match node from depth with
  | None => continue
  | Some n => if isTarget n then Some depth else continue
  end.

Section Command.
Variable schema : string -> NodeSpec.

(** The command returns its boolean, leaves the transaction as it made
    it, and hands it to [dispatch] when there is one. *)
Definition setIndentRuler (options : Options) (from : ResolvedPos)
    (tr : Transaction) (dispatch : bool)
    : Result (bool * Transaction * option Transaction) :=
  match findTargetDepth from (depth from) with
  | None => Ok (false, tr, None)
  | Some targetDepth =>
      pos ← before from (targetDepth + 1);
      match nodeAt schema (doc tr) pos with
      | None => Ok (false, tr, None)
      | Some node =>
          let nextAttrs :=
            <["firstLineIndent" := orZero (firstLineIndent options)]>
              (<["rightIndent" := orZero (rightIndent options)]>
                 (<["leftIndent" := orZero (leftIndent options)]>
                    (nodeAttrs node))) in
          tr' ← setNodeMarkup schema tr pos nextAttrs;
          Ok (true, tr', if dispatch then Some tr' else None)
      end
  end.

End Command.

(** Documents, a request and a run of the command at a cursor position,
    for the concrete runs below. *)
Definition paragraph (content : list Node) : Node :=
  Elem "paragraph"
    (<["textAlign" := VStr "center"]>
       (<["leftIndent" := VNum 0]>
          (<["rightIndent" := VNum 0]>
             (<["firstLineIndent" := VNum 0]> ∅))))
    [] content.

Definition hardBreak : Node := Elem "hardBreak" ∅ [] [].

Definition doc_break : Node := Elem "doc" ∅ [] [paragraph [hardBreak]].

Definition doc_hello : Node := Elem "doc" ∅ [] [paragraph [Text "hello" []]].

Definition doc_rule : Node :=
  Elem "doc" ∅ [] [Elem "horizontalRule" ∅ [] []; paragraph [Text "hello" []]].

(** The cursor inside the paragraph of [doc_break], before the hard
    break. *)
Definition cursor_break : ResolvedPos :=
  {| pos := 1; path := resolvePath schema doc_break 0 1 |}.

Definition request : Options :=
  {| leftIndent := Some (VNum 48);
     rightIndent := Some (VNum 24);
     firstLineIndent := Some (VNum 12) |}.

Definition runCommand (d : Node) (cursor : nat)
    : Result (bool * Transaction * option Transaction) :=
  from ← resolve schema d cursor;
  setIndentRuler schema request from {| doc := d; steps := [] |} true.

End IndentRuler.

(** ** More operations on numbers

    [Math.abs], and the length an array-like object with that [length] has
    (truncated, at least 0, at most 2^53 - 1; 0 for NaN). *)

Class JSNumberOps (N : Type) := {
  Math_abs : N -> N;
  ToLength : N -> Z
}.

Definition truncate (q : Q) : Z :=
  if (Qnum q <? 0)%Z then Qceiling q else Qfloor q.

Definition clampLength (z : Z) : Z := Z.max 0 (Z.min z (2 ^ 53 - 1)).

#[global] Instance exact_ops : JSNumberOps Q := {|
  Math_abs := Qabs;
  ToLength := fun q => clampLength (truncate q)
|}.

#[global] Instance binary64_ops : JSNumberOps float := {|
  Math_abs := PrimFloat.abs;
  ToLength := fun x =>
    match Prim2SF x with
    | S754_finite s m e => clampLength (truncate (Binary64.value s m e))
    | S754_infinity false => (2 ^ 53 - 1)%Z
    | _ => 0%Z
    end
|}.

(** ** The ruler: what is drawn, and what is read back from the editor *)

Module RulerView.
Import Ruler.

Section View.
Context {N : Type} `{JSNumber N} `{JSNumberOps N}.

(** The memo [positions]: where the three markers are drawn. *)
Record Positions := {
  leftX : N;
  rightX : N;
  firstLineX : N
}.

Definition positions (trackWidth : N) (s : IndentState N) : Positions :=
  let rightX := clamp (sub trackWidth (rightIndent s)) (num 0) trackWidth in
  let leftX := clamp (leftIndent s) (num 0) trackWidth in
  let firstLineX :=
    clamp (add (leftIndent s) (firstLineIndent s)) (num 0) rightX in
  {| leftX := leftX; rightX := rightX; firstLineX := firstLineX |}.

(** The styles of the four bands of the track: the width of the left
    margin, the width of the right margin (which starts at [rightX]), the
    width of the content band (which starts at [leftX]), and the start and
    width of the first-line guide. *)
Record Bands := {
  marginLeftWidth : N;
  marginRightWidth : N;
  contentWidth : N;
  guideLeft : N;
  guideWidth : N
}.

Definition bands (trackWidth : N) (p : Positions) : Bands :=
  {| marginLeftWidth := leftX p;
     marginRightWidth := Math_max (num 0) (sub trackWidth (rightX p));
     contentWidth := Math_max (num 0) (sub (rightX p) (leftX p));
     guideLeft := Math_min (leftX p) (firstLineX p);
     guideWidth := Math_abs (sub (firstLineX p) (leftX p)) |}.

(** One major tick: its position (also its React key) and its label. *)
Record Tick := {
  tick_x : N;
  tick_label : string
}.

(** The tick [Array.from] makes for an index. *)
Definition tickAt (index : nat) : Tick :=
  {| tick_x := mul (num (Z.of_nat index)) pxPerInch;
     tick_label := pretty index |}.

(** The memo [majorTicks]: a tick every [pxPerInch] pixels, labelled with
    its index.  [Array.from({ length }, ...)] throws for a length beyond
    2^32 - 1. *)
Definition majorTicks (trackWidth : N) : ProseMirror.Result (list Tick) :=
  if negb (truthy trackWidth) then ProseMirror.Ok []
  else
    let step := pxPerInch in
    let count := Math_floor (div trackWidth step) in
    let length := ToLength (add count (num 1)) in
    if (2 ^ 32 - 1 <? length)%Z
    then ProseMirror.Throw "Invalid array length"
    else
      ProseMirror.Ok (tickAt <$> seq 0 (Z.to_nat length)).

(** The number [rounded] that [formatInches(px)] shows before the suffix
    ["in"]. *)
Definition formatInches_rounded (px : N) : N :=
  let inches := div px pxPerInch in
  div (Math_round (mul inches (num 100))) (num 100).

(** An attribute value as [editor.getAttributes] gives it: null, a number
    or a string. *)
Inductive AttrValue :=
| ANull
| ANum (n : N)
| AStr (s : string).

(** [a ?? b] on the result of a property read ([None]: undefined). *)
Definition nullish_or (a b : option AttrValue) : option AttrValue :=
  match a with
  | None | Some ANull => b
  | Some _ => a
  end.

Section Sync.
(** [Number(s)] for a string [s]. *)
Variable StringToNumber : string -> N.

(** [Number(paragraphAttrs.name ?? headingAttrs.name ?? 0) || 0] *)
Definition attrNumber (paragraphAttrs headingAttrs : gmap string AttrValue)
    (name : string) : N :=
  let n :=
    match nullish_or (paragraphAttrs !! name)
            (nullish_or (headingAttrs !! name) (Some (ANum (num 0)))) with
    | Some (ANum n) => n
    | Some (AStr s) => StringToNumber s
    | Some ANull | None => num 0
    end in
  if truthy n then n else num 0.

(** [syncFromSelection], given what [editor.getAttributes("paragraph")] and
    [editor.getAttributes("heading")] return. *)
Definition syncFromSelection (paragraphAttrs headingAttrs : gmap string AttrValue)
    (st : State N) : State N :=
  match editor st with
  | None => st
  | Some _ =>
      if isDraggingRef st then st
      else
        {| trackRef := trackRef st;
           dragStateRef := dragStateRef st;
           isDraggingRef := isDraggingRef st;
           trackWidth := trackWidth st;
           indent :=
             {| leftIndent := attrNumber paragraphAttrs headingAttrs "leftIndent";
                rightIndent := attrNumber paragraphAttrs headingAttrs "rightIndent";
                firstLineIndent :=
                  attrNumber paragraphAttrs headingAttrs "firstLineIndent" |};
           activeDragType := activeDragType st;
           pointerCapture := pointerCapture st;
           editor := editor st |}
  end.

(** What can happen to a ruler: the pointer events of its three marker
    buttons, a selection or transaction notification of the editor, a
    resize of the track. *)
Inductive Event :=
| PointerDown (marker : Marker) (event : PointerEvent N)
| PointerMove (event : PointerEvent N)
| PointerUp (event : PointerEvent N)
| SelectionChanged (paragraphAttrs headingAttrs : gmap string AttrValue)
| TrackResized (rect : DOMRect N).

Definition step (st : State N) (e : Event) : State N :=
  match e with
  | PointerDown marker event => handleMarkerPointerDown marker event st
  | PointerMove event => handleMarkerPointerMove event st
  | PointerUp event => handleMarkerPointerUp event st
  | SelectionChanged paragraphAttrs headingAttrs =>
      syncFromSelection paragraphAttrs headingAttrs st
  | TrackResized rect =>
      match trackRef st with
      | None => st
      | Some _ =>
          update
            {| trackRef := Some rect;
               dragStateRef := dragStateRef st;
               isDraggingRef := isDraggingRef st;
               trackWidth := trackWidth st;
               indent := indent st;
               activeDragType := activeDragType st;
               pointerCapture := pointerCapture st;
               editor := editor st |}
      end
  end.

Definition run (events : list Event) (st : State N) : State N :=
  fold_left step events st.

Definition isPointerEvent (e : Event) : bool :=
  match e with
  | PointerDown _ _ | PointerMove _ | PointerUp _ => true
  | SelectionChanged _ _ | TrackResized _ => false
  end.

(** The three records of a session agree: the ref, the dragging flag and
    the state cell that selects the tooltip. *)
Definition consistent (st : State N) : Prop :=
  type (dragStateRef st) = activeDragType st
  /\ (isDraggingRef st = true <-> type (dragStateRef st) <> None)
  /\ (pointerId (dragStateRef st) <> None <-> type (dragStateRef st) <> None).

End Sync.

End View.

Arguments Positions N : clear implicits.
Arguments Bands N : clear implicits.
Arguments Tick N : clear implicits.
Arguments AttrValue N : clear implicits.
Arguments Event N : clear implicits.

End RulerView.

(** ** The page: font size, badge, unmounting *)

Module HomeView.
Import Home.

Section View.
Context {N : Type} `{JSNumber N}.

(** The updaters given to [setFontSize]; the size starts at 12. *)
Definition handleIncreaseFontSize (value : N) : N :=
  Math_min (num 72) (add value (num 1)).

Definition handleDecreaseFontSize (value : N) : N :=
  Math_max (num 8) (sub value (num 1)).

Inductive FontButton := Increase | Decrease.

Definition press (value : N) (b : FontButton) : N :=
  match b with
  | Increase => handleIncreaseFontSize value
  | Decrease => handleDecreaseFontSize value
  end.

(** [PageInfo]: nothing for a falsy page count, else the two numbers of
    "Page [currentPage] of [pageCount]". *)
Definition PageInfo (pageCount currentPage : N) : option (N * N) :=
  if truthy pageCount then Some (currentPage, pageCount) else None.

Definition Handler_eqb (a b : Handler) : bool :=
  match a, b with
  | handleScroll, handleScroll | handleUpdate, handleUpdate => true
  | _, _ => false
  end.

(** [removeEventListener] and [editor.off]: the listener registered under
    that name is taken out. *)
Fixpoint remove (t : Trigger) (h : Handler) (ls : list (Trigger * Handler))
    : list (Trigger * Handler) :=
  match ls with
  | [] => []
  | l :: rest =>
      if Trigger_eqb (fst l) t && Handler_eqb (snd l) h then rest
      else l :: remove t h rest
  end.

Definition removeListener (t : Trigger) (h : Handler) (st : State N) : State N :=
  {| editorRef := editorRef st;
     devicePixelRatio := devicePixelRatio st;
     pageCount := pageCount st;
     currentPage := currentPage st;
     editor := editor st;
     listeners := remove t h (listeners st) |}.

(** The cleanup of the first effect, which saw [container] in
    [editorRef.current] when it ran. *)
Definition scrollCleanup (container : option (Container N)) (st : State N)
    : State N :=
  match container with
  | None => st
  | Some _ => removeListener ContainerScroll handleScroll st
  end.

(** The cleanup of the second effect, which saw [ed] in [editor] when it
    ran. *)
Definition editorCleanup (ed : bool) (st : State N) : State N :=
  if ed then
    removeListener EditorSelectionUpdate handleUpdate
      (removeListener EditorUpdate handleUpdate st)
  else st.

(** Unmounting runs the cleanups of both effects; each effect last ran
    with the container and the editor the page still has. *)
Definition unmount (st : State N) : State N :=
  editorCleanup (editor st) (scrollCleanup (editorRef st) st).

(** A sequence of events, handled one after the other. *)
Definition handleAll (events : list (Event N)) (st : State N) : State N :=
  fold_left (fun acc e => handle e acc) events st.

End View.

End HomeView.

(** * Properties *)

(** ** Rational arithmetic: maxima, minima, rounding *)

Section ExactFacts.
Local Open Scope Q_scope.

Lemma Qmax_cases (x y : Q) :
  (y <= x /\ Qmax x y = x) \/ (x < y /\ Qmax x y = y).
Proof.
  unfold Qmax, GenericMinMax.gmax.
  destruct (x ?= y) eqn:E.
  - left. split; [| reflexivity]. apply Qeq_alt in E. rewrite E. apply Qle_refl.
  - right. split; [| reflexivity]. now apply Qlt_alt.
  - left. split; [| reflexivity]. apply Qgt_alt in E. now apply Qlt_le_weak.
Qed.

Lemma Qmin_cases (x y : Q) :
  (x <= y /\ Qmin x y = x) \/ (y < x /\ Qmin x y = y).
Proof.
  unfold Qmin, GenericMinMax.gmin.
  destruct (x ?= y) eqn:E.
  - left. split; [| reflexivity]. apply Qeq_alt in E. rewrite E. apply Qle_refl.
  - left. split; [| reflexivity]. apply Qlt_le_weak. now apply Qlt_alt.
  - right. split; [| reflexivity]. now apply Qgt_alt.
Qed.

Lemma round_lower (x : Q) : inject_Z (Exact.round x) <= x + (1 # 2).
Proof. apply Qfloor_le. Qed.

Lemma round_upper (x : Q) : x - (1 # 2) < inject_Z (Exact.round x).
Proof.
  unfold Exact.round.
  pose proof (Qlt_floor (x + (1 # 2))) as L.
  rewrite inject_Z_plus in L. change (inject_Z 1) with 1 in L. lra.
Qed.

Lemma Zle_of_Qlt (a b : Z) : inject_Z a < inject_Z b + 1 -> (a <= b)%Z.
Proof.
  intros L. change 1 with (inject_Z 1) in L. rewrite <- inject_Z_plus in L.
  rewrite <- Zlt_Qlt in L. lia.
Qed.

Lemma round_eq (x : Q) (z : Z) :
  inject_Z z <= x + (1 # 2) -> x - (1 # 2) < inject_Z z -> Exact.round x = z.
Proof.
  intros L U. pose proof (round_lower x). pose proof (round_upper x).
  apply Z.le_antisymm; apply Zle_of_Qlt; lra.
Qed.

Lemma round_comp (x y : Q) : x == y -> Exact.round x = Exact.round y.
Proof.
  intros E. apply round_eq.
  - rewrite E. apply round_lower.
  - rewrite E. apply round_upper.
Qed.

Lemma round_mono (x y : Q) : x <= y -> (Exact.round x <= Exact.round y)%Z.
Proof.
  intros L. pose proof (round_lower x). pose proof (round_upper y).
  apply Zle_of_Qlt. lra.
Qed.

Lemma round_nonneg (x : Q) : 0 <= x -> 0 <= inject_Z (Exact.round x).
Proof.
  intros P. change 0 with (inject_Z 0). rewrite <- Zle_Qle.
  apply Zle_of_Qlt. pose proof (round_upper x).
  change (inject_Z 0) with 0. lra.
Qed.

Lemma round_whole (x : Q) : whole x -> inject_Z (Exact.round x) == x.
Proof.
  unfold whole. intros W.
  rewrite (round_eq x (Qfloor x)); [exact W | rewrite W; lra | rewrite W; lra].
Qed.

Lemma whole_inject_Z (z : Z) : whole (inject_Z z).
Proof. unfold whole. now rewrite Qfloor_Z. Qed.

#[global] Instance round_proper : Proper (Qeq ==> eq) Exact.round.
Proof. intros x y E. now apply round_comp. Qed.

Lemma whole_iff (q : Q) : whole q <-> exists z : Z, q == inject_Z z.
Proof.
  split.
  - intros W. exists (Qfloor q). symmetry. exact W.
  - intros [z E]. unfold whole.
    rewrite (Qfloor_comp _ _ E), Qfloor_Z. symmetry. exact E.
Qed.

#[global] Instance whole_proper : Proper (Qeq ==> iff) whole.
Proof.
  intros x y E. unfold whole. rewrite (Qfloor_comp _ _ E).
  split; intros H; (etransitivity; [exact H |]);
    [exact E | symmetry; exact E].
Qed.

Lemma whole_minus (a b : Q) : whole a -> whole b -> whole (a - b).
Proof.
  rewrite !whole_iff. intros [za Ea] [zb Eb]. exists (za - zb)%Z.
  replace (za - zb)%Z with (za + - zb)%Z by lia.
  rewrite inject_Z_plus, inject_Z_opp. lra.
Qed.

(** Rounding does not cross a whole bound. *)
Lemma round_le_whole (x y : Q) :
  x <= y -> whole y -> inject_Z (Exact.round x) <= y.
Proof.
  intros L W. rewrite <- (round_whole y W). rewrite <- Zle_Qle.
  now apply round_mono.
Qed.

Lemma round_minus_whole (x y : Q) :
  whole y -> inject_Z (Exact.round (x - y)) == inject_Z (Exact.round x) - y.
Proof.
  intros W. apply whole_iff in W as [k E].
  assert (Exact.round (x - y) = (Exact.round x - k)%Z) as ->.
  { pose proof (round_lower x). pose proof (round_upper x).
    apply round_eq;
      replace (Exact.round x - k)%Z with (Exact.round x + - k)%Z by lia;
      rewrite inject_Z_plus, inject_Z_opp; lra. }
  replace (Exact.round x - k)%Z with (Exact.round x + - k)%Z by lia.
  rewrite inject_Z_plus, inject_Z_opp. lra.
Qed.

Lemma whole_max (a b : Q) : whole a -> whole b -> whole (Qmax a b).
Proof. intros. destruct (Qmax_cases a b) as [[_ ->] | [_ ->]]; assumption. Qed.

Lemma whole_min (a b : Q) : whole a -> whole b -> whole (Qmin a b).
Proof. intros. destruct (Qmin_cases a b) as [[_ ->] | [_ ->]]; assumption. Qed.

(** [trackWidth || 0] *)
Lemma width_eq (W : Q) : (if truthy W then W else num 0) == W.
Proof.
  cbn. destruct (Qeq_bool W 0) eqn:E; cbn; [| reflexivity].
  apply Qeq_bool_iff in E. now rewrite E.
Qed.

End ExactFacts.

(** ** The indent model *)

Module RulerFacts.
Import Ruler.
Local Open Scope Q_scope.

Ltac exact_model :=
  unfold setFromDrag_next, clamp, minGap;
  cbn [num add sub mul div Math_max Math_min Math_round Exact.exact_number
       leftIndent rightIndent firstLineIndent];
  change (inject_Z 0) with 0; change (inject_Z 12) with 12.

Ltac split_minmax :=
  repeat match goal with
  | |- context [Qmax ?a ?b] =>
      let E := fresh "E" in
      destruct (Qmax_cases a b) as [[? E] | [? E]]; rewrite !E in *; clear E
  | |- context [Qmin ?a ?b] =>
      let E := fresh "E" in
      destruct (Qmin_cases a b) as [[? E] | [? E]]; rewrite !E in *; clear E
  | _ : context [Qmax ?a ?b] |- _ =>
      let E := fresh "E" in
      destruct (Qmax_cases a b) as [[? E] | [? E]]; rewrite !E in *; clear E
  | _ : context [Qmin ?a ?b] |- _ =>
      let E := fresh "E" in
      destruct (Qmin_cases a b) as [[? E] | [? E]]; rewrite !E in *; clear E
  end.

Ltac round_bounds :=
  repeat match goal with
  | |- context [Exact.round ?t] =>
      lazymatch goal with
      | _ : inject_Z (Exact.round t) <= t + (1 # 2) |- _ => fail
      | _ => pose proof (round_lower t); pose proof (round_upper t)
      end
  end.

(** Unfold one update on rationals; [width] stands for [trackWidth || 0]. *)
Ltac exact_update W :=
  exact_model;
  let width := fresh "width" in
  let HW := fresh "HW" in
  set (width := if truthy W then W else 0) in *;
  assert (HW : width == W) by apply width_eq;
  clearbody width.

(** Closed comparisons and equations between rationals, by evaluation. *)
Ltac qdecide :=
  lazymatch goal with
  | |- ~ _ =>
      let H := fresh in
      intros H; vm_compute in H;
      first [discriminate H | apply H; reflexivity]
  | |- _ =>
      vm_compute;
      first [reflexivity | discriminate
            | let H := fresh in intros H; discriminate H]
  end.

Ltac solve_round :=
  split_minmax;
  try match goal with
      | |- Exact.round ?a = ?z => apply (round_eq a z)
      end;
  round_bounds; lra.

(** *** Frame *)

(** C6: a left-marker update leaves [rightIndent] as it is, a
    right-marker update leaves [leftIndent] as it is, and a first-line
    update leaves both as they are; in either reading of the numbers. *)
Theorem drag_frame (N : Type) (J : JSNumber N) (trackWidth : N)
    (s : IndentState N) (x : N) :
  rightIndent (setFromDrag_next trackWidth s mLeft x) = rightIndent s
  /\ leftIndent (setFromDrag_next trackWidth s mRight x) = leftIndent s
  /\ leftIndent (setFromDrag_next trackWidth s mFirstLine x) = leftIndent s
  /\ rightIndent (setFromDrag_next trackWidth s mFirstLine x) = rightIndent s.
Proof. repeat split. Qed.

(** *** The gap between the left and the right marker *)




(** *** Dragging the left marker *)




(** *** Dragging the first-line marker *)




(** *** The same runs on binary64 floats *)

(** The inputs of the three counterexamples above are binary64 values, and
    the updates run on floats as they do on rationals. *)
Example counterexamples_binary64 :
  let zero := {| leftIndent := 0; rightIndent := 0;
                 firstLineIndent := 0 |}%float in
  setFromDrag_next 960.5%float zero mLeft 2000%float
  = {| leftIndent := 949; rightIndent := 0; firstLineIndent := -948 |}%float
  /\ setFromDrag_next 960%float
       {| leftIndent := 0; rightIndent := 950; firstLineIndent := 0 |}%float
       mLeft 2000%float
     = {| leftIndent := 0; rightIndent := 950; firstLineIndent := 0 |}%float
  /\ setFromDrag_next 40%float zero mFirstLine 50%float
     = {| leftIndent := 0; rightIndent := 0; firstLineIndent := 40 |}%float
  /\ setFromDrag_next 100%float
       {| leftIndent := 0; rightIndent := 150; firstLineIndent := 0 |}%float
       mFirstLine 50%float
     = {| leftIndent := 0; rightIndent := 150; firstLineIndent := 0 |}%float.
Proof. cbv zeta. repeat split; vm_compute; reflexivity. Qed.

(** *** Repeating an update *)

(** A first-line update does not read [firstLineIndent]: repeating it
    changes nothing, in either reading of the numbers. *)
Lemma repeated_firstLine_update (N : Type) (J : JSNumber N) (trackWidth : N)
    (s : IndentState N) (x : N) :
  setFromDrag_next trackWidth (setFromDrag_next trackWidth s mFirstLine x)
    mFirstLine x
  = setFromDrag_next trackWidth s mFirstLine x.
Proof. reflexivity. Qed.

(** A right-marker update takes the first-line position from the rounded
    right indent it stores: repeating it changes nothing. *)
Lemma repeated_right_update (W : Q) (s : IndentState Q) (x : Q) :
  setFromDrag_next W (setFromDrag_next W s mRight x) mRight x
  = setFromDrag_next W s mRight x.
Proof.
  destruct s as [L R F]. exact_update W.
  match goal with
  | |- context [Exact.round (width - ?r)] =>
      generalize (inject_Z (Exact.round (width - r)))
  end.
  intros R'. f_equal. apply (f_equal inject_Z). solve_round.
Qed.

(** A left-marker update takes it from the position before rounding:
    repeating it changes nothing as long as that position is whole. *)
Lemma repeated_left_update_whole (W : Q) (s : IndentState Q) (x : Q) :
  whole x -> whole (W - rightIndent s) ->
  setFromDrag_next W (setFromDrag_next W s mLeft x) mLeft x
  = setFromDrag_next W s mLeft x.
Proof.
  destruct s as [L R F]. cbn [rightIndent]. intros WX WR. exact_update W.
  assert (whole (Qmin (Qmax 0 (width - R - 12)) (Qmax 0 x))) as WN.
  { apply whole_min; apply whole_max;
      try apply (whole_inject_Z 0); try assumption.
    rewrite HW. apply whole_minus; [assumption | apply (whole_inject_Z 12)]. }
  apply round_whole in WN. revert WN.
  generalize (Qmin (Qmax 0 (width - R - 12)) (Qmax 0 x)). intros n WN.
  f_equal. apply (f_equal inject_Z). solve_round.
Qed.

(** C7: the update is not idempotent.  On a track of 960, from left 0,
    right 0, first line 20, a left-marker update to position 10.5 gives
    left 11, first line 10; the same update again gives first line 11;
    the first-line marker moves by a pixel with every repetition.  The
    run is the same on rationals and on binary64 floats. *)
Theorem repeated_left_update_drifts :
  (let s := {| leftIndent := 0; rightIndent := 0; firstLineIndent := 20 |} in
   let s1 := setFromDrag_next 960 s mLeft (21 # 2) in
   let s2 := setFromDrag_next 960 s1 mLeft (21 # 2) in
   s1 = {| leftIndent := 11; rightIndent := 0; firstLineIndent := 10 |}
   /\ s2 = {| leftIndent := 11; rightIndent := 0; firstLineIndent := 11 |}
   /\ s2 <> s1)
  /\ (let s := {| leftIndent := 0; rightIndent := 0;
                  firstLineIndent := 20 |}%float in
      let s1 := setFromDrag_next 960%float s mLeft 10.5%float in
      let s2 := setFromDrag_next 960%float s1 mLeft 10.5%float in
      s1 = {| leftIndent := 11; rightIndent := 0;
              firstLineIndent := 10 |}%float
      /\ s2 = {| leftIndent := 11; rightIndent := 0;
                 firstLineIndent := 11 |}%float
      /\ s2 <> s1).
Proof.
  cbv zeta. repeat split; try (vm_compute; reflexivity);
    intros H; vm_compute in H; discriminate H.
Qed.

End RulerFacts.

(** ** The drag session *)

Module SessionFacts.
Import Ruler.

Section Session.
Context {N : Type} `{JSNumber N}.

Lemma applyToEditor_refs (next : IndentState N) (st : State N) :
  dragStateRef (applyToEditor next st) = dragStateRef st
  /\ isDraggingRef (applyToEditor next st) = isDraggingRef st
  /\ activeDragType (applyToEditor next st) = activeDragType st.
Proof. unfold applyToEditor. destruct (editor st); repeat split. Qed.

Lemma setFromDrag_refs (ty : Marker) (x : N) (st : State N) :
  dragStateRef (setFromDrag ty x st) = dragStateRef st
  /\ isDraggingRef (setFromDrag ty x st) = isDraggingRef st
  /\ activeDragType (setFromDrag ty x st) = activeDragType st.
Proof.
  unfold setFromDrag.
  match goal with
  | |- context [applyToEditor ?n ?s] => exact (applyToEditor_refs n s)
  end.
Qed.

(** A pointer-down on a marker of a mounted track starts a session for
    that marker and that pointer. *)
Lemma pointerDown_starts (ty : Marker) (event : PointerEvent N)
    (st : State N) :
  trackRef st <> None ->
  dragStateRef (handleMarkerPointerDown ty event st)
  = {| type := Some ty; pointerId := Some (event_pointerId event) |}.
Proof.
  intros T. unfold handleMarkerPointerDown.
  destruct (trackRef st); [| congruence].
  now rewrite (proj1 (setFromDrag_refs _ _ _)).
Qed.

Lemma other_pointer_spec (d : DragState) (p : Z) (event : PointerEvent N) :
  pointerId d = Some p ->
  other_pointer d event = negb (p =? event_pointerId event)%Z.
Proof. unfold other_pointer. now intros ->. Qed.

End Session.

(** C8: while a session for pointer [p] is active, a pointer-move or a
    pointer-up of another pointer leaves the whole state of the ruler as
    it is (session, indents, what the editor was sent); a pointer-up of
    [p] ends the session and touches nothing else. *)
Theorem other_pointer_ignored (N : Type) (J : JSNumber N) (st : State N)
    (m : Marker) (p : Z) (event : PointerEvent N) :
  dragStateRef st = {| type := Some m; pointerId := Some p |} ->
  (event_pointerId event <> p ->
     handleMarkerPointerMove event st = st
     /\ handleMarkerPointerUp event st = st)
  /\ (event_pointerId event = p ->
        idle (handleMarkerPointerUp event st)
        /\ indent (handleMarkerPointerUp event st) = indent st
        /\ editor (handleMarkerPointerUp event st) = editor st).
Proof.
  intros D. split.
  - intros Ne. unfold handleMarkerPointerMove, handleMarkerPointerUp.
    rewrite D. cbn [type].
    rewrite (other_pointer_spec _ p) by reflexivity.
    destruct (Z.eqb_spec p (event_pointerId event)); [congruence |].
    split; reflexivity.
  - intros E. unfold handleMarkerPointerUp.
    rewrite (other_pointer_spec _ p) by now rewrite D.
    destruct (Z.eqb_spec p (event_pointerId event)); [| congruence].
    repeat split.
Qed.

(** The scenario of the specification: pointer 5 goes down on the left
    marker, pointer 7 moves and is ignored, pointer 5 goes up. *)
Lemma other_pointer_ignored_witness :
  let track := {| rect_left := 20; rect_width := 960 |}%Q in
  let st0 := update (initial (Some track) (Some [])) in
  let st1 :=
    handleMarkerPointerDown mLeft
      {| event_pointerId := 5; clientX := 120 |}%Q st0 in
  dragStateRef st1 = {| type := Some mLeft; pointerId := Some 5%Z |}
  /\ handleMarkerPointerMove {| event_pointerId := 7; clientX := 300 |}%Q st1
     = st1
  /\ handleMarkerPointerUp {| event_pointerId := 7; clientX := 300 |}%Q st1
     = st1
  /\ idle (handleMarkerPointerUp {| event_pointerId := 5; clientX := 300 |}%Q st1).
Proof.
  cbv zeta.
  pose (st1 :=
    handleMarkerPointerDown mLeft
      {| event_pointerId := 5; clientX := 120 |}%Q
      (update (initial (Some {| rect_left := 20; rect_width := 960 |}%Q)
                 (Some [])))).
  assert (D : dragStateRef st1 = {| type := Some mLeft; pointerId := Some 5%Z |})
    by reflexivity.
  split; [exact D |].
  destruct (other_pointer_ignored Q _ st1 mLeft 5
              {| event_pointerId := 7; clientX := 300 |}%Q D) as [A _].
  destruct (other_pointer_ignored Q _ st1 mLeft 5
              {| event_pointerId := 5; clientX := 300 |}%Q D) as [_ B].
  destruct A as [A1 A2]; [cbn; lia |].
  destruct B as [B1 _]; [reflexivity |].
  split; [exact A1 | split; [exact A2 | exact B1]].
Defined.

End SessionFacts.

(** ** The pagination estimator *)

Module HomeFacts.
Import Home.

Section Triggers.
Context {N : Type} `{JSNumber N}.

Lemma updatePagination_in_sync (st : State N) : in_sync (updatePagination st).
Proof.
  unfold in_sync, updatePagination.
  destruct (editorRef st) as [c |] eqn:E.
  - destruct (estimate (devicePixelRatio st) c) as [pc cur] eqn:Est.
    cbn -[estimate]. now rewrite Est.
  - now rewrite E.
Qed.

Lemma updatePagination_frame (st : State N) :
  editorRef (updatePagination st) = editorRef st
  /\ devicePixelRatio (updatePagination st) = devicePixelRatio st
  /\ listeners (updatePagination st) = listeners st
  /\ editor (updatePagination st) = editor st.
Proof.
  unfold updatePagination. destruct (editorRef st) eqn:E.
  - destruct (estimate _ _). now cbn -[estimate].
  - now rewrite E.
Qed.

Lemma mounted_wired (container : option (Container N)) (dpr : N) :
  container <> None ->
  wired (editorCreated (mount (initial container dpr))).
Proof.
  intros C. destruct container as [c |]; [| congruence].
  unfold wired, editorCreated, mount, editorEffect, scrollEffect, initial.
  cbn -[estimate]. destruct (estimate dpr c). reflexivity.
Qed.

(** Mounting ends with a first estimate. *)
Lemma mount_in_sync (container : option (Container N)) (dpr : N) :
  in_sync (mount (initial container dpr)).
Proof.
  destruct container as [c |]; [| exact I].
  unfold mount, editorEffect, scrollEffect, updatePagination, initial.
  cbn -[estimate]. destruct (estimate dpr c) as [pc cur] eqn:Est.
  unfold in_sync. cbn -[estimate]. now rewrite Est.
Qed.

(** A scroll, a document update and a selection update each end with an
    estimate of the container as it then is. *)
Lemma handled_in_sync (st : State N) (e : Event N) :
  wired st -> trigger e <> ContainerResize -> in_sync (handle e st).
Proof.
  intros Wd T. unfold handle, notify.
  assert (listeners (measure e st) = listeners st) as L
    by (unfold measure; destruct e, (editorRef st); reflexivity).
  rewrite L, Wd.
  destruct e; cbn [trigger] in T; try congruence;
    cbn [trigger Trigger_eqb fold_left fst snd run];
    apply updatePagination_in_sync.
Qed.

Lemma handled_wired (st : State N) (e : Event N) :
  wired st -> wired (handle e st).
Proof.
  unfold wired. intros Wd. unfold handle, notify.
  assert (listeners (measure e st) = listeners st) as L
    by (unfold measure; destruct e, (editorRef st); reflexivity).
  rewrite L, Wd.
  destruct e; cbn [trigger Trigger_eqb fold_left fst snd run];
    rewrite ?(proj1 (proj2 (proj2 (updatePagination_frame _))));
    exact (eq_trans L Wd).
Qed.

End Triggers.

(** *** Exact arithmetic *)

Section ExactPagination.
Local Open Scope Q_scope.

Lemma pageHeightPx_exact (dpr : Q) : 0 < dpr -> pageHeightPx dpr == 1056.
Proof.
  intros P. unfold pageHeightPx, pageHeightInches.
  cbn [num mul div Exact.exact_number].
  change (inject_Z 11) with 11. change (inject_Z 96) with 96.
  field. lra.
Qed.

Lemma Qmax_inject_Z (a b : Z) :
  Qmax (inject_Z a) (inject_Z b) = inject_Z (Z.max a b).
Proof.
  destruct (Qmax_cases (inject_Z a) (inject_Z b)) as [[L ->] | [L ->]];
    [rewrite <- Zle_Qle in L | rewrite <- Zlt_Qlt in L]; f_equal; lia.
Qed.

Lemma Qmin_inject_Z (a b : Z) :
  Qmin (inject_Z a) (inject_Z b) = inject_Z (Z.min a b).
Proof.
  destruct (Qmin_cases (inject_Z a) (inject_Z b)) as [[L ->] | [L ->]];
    [rewrite <- Zle_Qle in L | rewrite <- Zlt_Qlt in L]; f_equal; lia.
Qed.

(** In exact arithmetic the device pixel ratio cancels, and the
    estimator computes the two formulas of the specification. *)
Lemma estimate_exact (dpr : Q) (c : Container Q) :
  0 < dpr ->
  let pages := Z.max 1 (Qceiling (scrollHeight c / 1056)) in
  let page := Z.min pages (Z.max 1 (Qfloor (scrollTop c / 1056) + 1)) in
  fst (estimate dpr c) = inject_Z pages
  /\ snd (estimate dpr c) == inject_Z page.
Proof.
  intros P. cbv zeta. unfold estimate.
  cbn [fst snd num add div Math_max Math_min Math_ceil Math_floor
       Exact.exact_number].
  pose proof (pageHeightPx_exact dpr P) as E.
  rewrite (Qceiling_comp _ (scrollHeight c / 1056)) by now rewrite E.
  rewrite (Qfloor_comp _ (scrollTop c / 1056)) by now rewrite E.
  rewrite Qmax_inject_Z. split; [reflexivity |].
  rewrite <- inject_Z_plus, Qmax_inject_Z, Qmin_inject_Z.
  reflexivity.
Qed.

End ExactPagination.

(** The cases of the specification, at device pixel ratio 1, on binary64
    floats. *)
Example estimate_cases :
  estimate 1%float {| scrollHeight := 0; scrollTop := 0 |}%float
  = (1, 1)%float
  /\ estimate 1%float {| scrollHeight := 1056; scrollTop := 0 |}%float
     = (1, 1)%float
  /\ estimate 1%float {| scrollHeight := 1057; scrollTop := 0 |}%float
     = (2, 1)%float
  /\ estimate 1%float {| scrollHeight := 3000; scrollTop := 1056 |}%float
     = (3, 2)%float.
Proof. repeat split; vm_compute; reflexivity. Qed.

(** At the ratios of common displays the three roundings are exact. *)
Example pageHeightPx_common_ratios :
  pageHeightPx 1%float = 1056%float
  /\ pageHeightPx 1.25%float = 1056%float
  /\ pageHeightPx 1.5%float = 1056%float
  /\ pageHeightPx 2%float = 1056%float
  /\ pageHeightPx 3%float = 1056%float.
Proof. repeat split; vm_compute; reflexivity. Qed.

(** C1: the page height is not independent of the device pixel ratio.
    [(11 * dpr * 96) / dpr] rounds three times.  At ratio 60/57 =
    1.0526315789473684 the products are 11.578947368421051 and
    1111.5789473684208 and the quotient is 1055.9999999999998, so a
    content height of 1056 counts two pages, not one.  At ratio 60/63 = 0.9523809523809523 the quotient is
    1056.0000000000002, so a scroll offset of 1056 in three pages is still
    page 1, not page 2. *)
Theorem pageHeightPx_rounds :
  let ratio105 := (60 / 57)%float in
  let ratio95 := (60 / 63)%float in
  pageHeightPx ratio105 = 0x1.07fffffffffffp+10%float
  /\ pageHeightPx ratio105 <> 1056%float
  /\ estimate ratio105 {| scrollHeight := 1056; scrollTop := 0 |}%float
     = (2, 1)%float
  /\ pageHeightPx ratio95 = 0x1.0800000000001p+10%float
  /\ pageHeightPx ratio95 <> 1056%float
  /\ estimate ratio95 {| scrollHeight := 3000; scrollTop := 1056 |}%float
     = (3, 1)%float.
Proof.
  cbv zeta. repeat split; try (vm_compute; reflexivity);
    intros E; vm_compute in E; discriminate E.
Qed.

(** C3: nothing listens for a resize of the container.  After a mount
    with 1000 pixels of content the badge is in sync at one page; the
    container is resized and its content now measures 3000 pixels, the
    estimator gives three pages, the badge still shows one.  The same
    change reported as a document update is picked up. *)
Theorem resize_not_observed :
  let st :=
    editorCreated
      (mount (initial (Some {| scrollHeight := 1000; scrollTop := 0 |})
                1))%float in
  let resized := {| scrollHeight := 3000; scrollTop := 0 |}%float in
  in_sync st
  /\ editorRef (handle (Resized resized) st) = Some resized
  /\ (pageCount (handle (Resized resized) st),
      currentPage (handle (Resized resized) st)) = (1, 1)%float
  /\ estimate 1%float resized = (3, 1)%float
  /\ ~ in_sync (handle (Resized resized) st)
  /\ in_sync (handle (Updated resized) st).
Proof.
  cbv zeta. repeat split; try (vm_compute; reflexivity).
  intros S. vm_compute in S. discriminate S.
Qed.

End HomeFacts.

(** ** The [setIndentRuler] command *)

Module CommandFacts.
Import ProseMirror IndentRuler.

Lemma findTargetDepth_none (from : ResolvedPos) (d : nat) :
  Forall (fun e => isTarget e.1.1 = false) (path from) ->
  findTargetDepth from d = None.
Proof.
  intros F. induction d as [| d IH]; cbn [findTargetDepth]; unfold node.
  - destruct (path from !! 0%nat) as [[[n i] o] |] eqn:E; [| reflexivity].
    pose proof (Forall_lookup_1 _ _ _ _ F E) as T. cbn in T. now rewrite T.
  - destruct (path from !! S d) as [[[n i] o] |] eqn:E; [| exact IH].
    pose proof (Forall_lookup_1 _ _ _ _ F E) as T. cbn in T. rewrite T.
    exact IH.
Qed.

(** C9: when no ancestor of the selection is a paragraph or a heading the
    command returns [false], without an exception, with the transaction
    as it was and nothing dispatched; and when the container is not there
    the estimator leaves the page state as it is. *)
Theorem missing_target_noop (schema : string -> NodeSpec)
    (options : Options) (from : ResolvedPos) (tr : Transaction)
    (dispatch : bool) (N : Type) (J : JSNumber N) (st : Home.State N) :
  Forall (fun e => isTarget e.1.1 = false) (path from) ->
  Home.editorRef st = None ->
  setIndentRuler schema options from tr dispatch = Ok (false, tr, None)
  /\ Home.updatePagination st = st.
Proof.
  intros F E. split.
  - unfold setIndentRuler. now rewrite findTargetDepth_none.
  - unfold Home.updatePagination. now rewrite E.
Qed.

(** A selection on the horizontal rule that opens [doc_rule]; a page
    whose container is not mounted. *)
Lemma missing_target_noop_witness :
  let from := {| pos := 0; path := resolvePath schema doc_rule 0 0 |} in
  let st := Home.initial None 1%float in
  (resolve schema doc_rule 0 = Ok from
   /\ Forall (fun e => isTarget e.1.1 = false) (path from)
   /\ Home.editorRef st = None)
  /\ runCommand doc_rule 0 = Ok (false, {| doc := doc_rule; steps := [] |}, None)
  /\ Home.updatePagination st = st.
Proof.
  cbv zeta.
  assert (Forall (fun e => isTarget e.1.1 = false)
            (path {| pos := 0; path := resolvePath schema doc_rule 0 0 |}))
    as F by (repeat constructor).
  split; [exact (conj eq_refl (conj F eq_refl)) |].
  exact (missing_target_noop schema request
           {| pos := 0; path := resolvePath schema doc_rule 0 0 |}
           {| doc := doc_rule; steps := [] |} true float _
           (Home.initial None 1%float) F eq_refl).
Defined.

(** C10: the command does not reach the block.  [$from.before(targetDepth
    + 1)] is a position inside the paragraph found at [targetDepth], so
    [nodeAt] gives a child of it; the paragraph itself is at
    [$from.before(targetDepth)].  With the cursor before a hard break the
    command succeeds and dispatches a transaction that replaces the hard
    break by itself: the paragraph keeps indents 0 where 48, 24 and 12 were
    asked for.  With the cursor before or inside text, [setNodeMarkup] is
    asked to rebuild a text node and throws.  With the cursor at the end of
    the paragraph there is no node and the command returns [false]. *)
Theorem setIndentRuler_misses_block :
  (resolve schema doc_break 1 = Ok cursor_break
   /\ findTargetDepth cursor_break (depth cursor_break) = Some 1%nat
   /\ node cursor_break 1 = Some (paragraph [hardBreak])
   /\ before cursor_break 1 = Ok 0%nat
   /\ nodeAt schema doc_break 0 = Some (paragraph [hardBreak])
   /\ before cursor_break 2 = Ok 1%nat
   /\ nodeAt schema doc_break 1 = Some hardBreak)
  /\ (exists tr,
         runCommand doc_break 1 = Ok (true, tr, Some tr)
         /\ doc tr = doc_break
         /\ steps tr = [ReplaceStep 1 2 hardBreak]
         /\ nodeAttrs <$> nodeAt schema (doc tr) 0
            = Some (nodeAttrs (paragraph [hardBreak]))
         /\ nodeAttrs (paragraph [hardBreak]) !! "leftIndent" = Some (VNum 0))
  /\ runCommand doc_hello 3 = Throw "NodeType.create can't construct text nodes"
  /\ runCommand doc_hello 1 = Throw "NodeType.create can't construct text nodes"
  /\ runCommand doc_hello 6
     = Ok (false, {| doc := doc_hello; steps := [] |}, None).
Proof.
  split; [repeat split; vm_compute; reflexivity |].
  split; [| repeat split; vm_compute; reflexivity].
  exists {| doc := doc_break; steps := [ReplaceStep 1 2 hardBreak] |}.
  repeat split; vm_compute; reflexivity.
Qed.

End CommandFacts.

(** ** The drawn ruler *)

Module ViewFacts.
Import Ruler RulerView RulerFacts.
Local Open Scope Q_scope.

Ltac exact_view :=
  unfold positions, bands, clamp;
  cbn [num add sub mul div Math_max Math_min Math_round Math_abs
       Exact.exact_number exact_ops
       leftIndent rightIndent firstLineIndent
       leftX rightX firstLineX
       marginLeftWidth marginRightWidth contentWidth guideLeft guideWidth];
  change (inject_Z 0) with 0.

Lemma clamp_le_max (v lo hi : Q) : clamp v lo hi <= hi.
Proof. unfold clamp. cbn. split_minmax; lra. Qed.

Lemma clamp_ge_min (v lo hi : Q) : lo <= hi -> lo <= clamp v lo hi.
Proof. intros O. unfold clamp. cbn. split_minmax; lra. Qed.

Lemma clamp_inside (v lo hi : Q) : lo <= v <= hi -> clamp v lo hi == v.
Proof. intros O. unfold clamp. cbn. split_minmax; lra. Qed.

(** X1: [clamp] never gives more than [max]; for [min <= max] it gives a
    value between the two, the value itself when that lies between them,
    [min] for a value below and [max] for a value above; for bounds the
    wrong way round it gives [max]. *)
Theorem clamp_spec (v lo hi : Q) :
  clamp v lo hi <= hi
  /\ (lo <= hi ->
      lo <= clamp v lo hi
      /\ (lo <= v <= hi -> clamp v lo hi == v)
      /\ (v <= lo -> clamp v lo hi == lo)
      /\ (hi <= v -> clamp v lo hi == hi))
  /\ (hi <= lo -> clamp v lo hi == hi).
Proof.
  split; [apply clamp_le_max |]. split.
  - intros O. split; [now apply clamp_ge_min |].
    split; [apply clamp_inside |].
    split; intros B; unfold clamp; cbn; split_minmax; lra.
  - intros O. unfold clamp. cbn. split_minmax; lra.
Qed.

Lemma clamp_spec_witness :
  (0 <= 948 /\ 0 <= 300 <= 948 /\ -5 <= 0 /\ 948 <= 2000)
  /\ clamp 300 0 948 == 300
  /\ clamp (-5) 0 948 == 0
  /\ clamp 2000 0 948 == 948
  /\ (960 <= 972 /\ clamp 100 972 960 == 960).
Proof.
  assert (0 <= 948 /\ 0 <= 300 <= 948 /\ -5 <= 0 /\ 948 <= 2000)
    as (O & I & B & A) by (repeat split; qdecide).
  assert (960 <= 972) as Inv by qdecide.
  split; [exact (conj O (conj I (conj B A))) |].
  split; [exact (proj1 (proj2 (proj1 (proj2 (clamp_spec 300 0 948)) O)) I) |].
  split;
    [exact (proj1 (proj2 (proj2 (proj1 (proj2 (clamp_spec (-5) 0 948)) O))) B) |].
  split;
    [exact (proj2 (proj2 (proj2 (proj1 (proj2 (clamp_spec 2000 0 948)) O))) A) |].
  exact (conj Inv (proj2 (proj2 (clamp_spec 100 972 960)) Inv)).
Defined.





(** *** The dragged marker is drawn where the pointer is *)

#[global] Instance clamp_proper :
  Proper (Qeq ==> Qeq ==> Qeq ==> Qeq) (@clamp Q Exact.exact_number).
Proof.
  intros v v' Ev lo lo' El hi hi' Eh. unfold clamp. cbn.
  split_minmax; lra.
Qed.

Lemma whole_bound (W R : Q) : whole W -> whole R -> whole (Qmax 0 (W - R - 12)).
Proof.
  intros WW WR. apply whole_max; [apply (whole_inject_Z 0) |].
  apply whole_minus; [now apply whole_minus | apply (whole_inject_Z 12)].
Qed.

Lemma whole_clamp (v lo hi : Q) :
  whole v -> whole lo -> whole hi -> whole (clamp v lo hi).
Proof.
  intros. unfold clamp. cbn. apply whole_min; [| apply whole_max]; assumption.
Qed.

(** What an update stores, with the track width for [trackWidth || 0]. *)
Lemma left_next (W : Q) (s : IndentState Q) (x : Q) :
  let newLeftX := clamp x 0 (Qmax 0 (W - rightIndent s - 12)) in
  let newFirstLineX :=
    clamp (leftIndent s + firstLineIndent s) 0 (Qmax 0 (W - rightIndent s)) in
  leftIndent (setFromDrag_next W s mLeft x)
  == inject_Z (Exact.round newLeftX)
  /\ firstLineIndent (setFromDrag_next W s mLeft x)
     == inject_Z (Exact.round (newFirstLineX - newLeftX)).
Proof.
  destruct s as [L R F]. cbv zeta. cbn [leftIndent rightIndent firstLineIndent].
  unfold clamp. exact_update W.
  split; (erewrite round_comp; [reflexivity |]); split_minmax; lra.
Qed.

Lemma firstLine_next (W : Q) (s : IndentState Q) (x : Q) :
  firstLineIndent (setFromDrag_next W s mFirstLine x)
  == inject_Z (Exact.round
                 (clamp x 0 (Qmax 0 (W - rightIndent s)) - leftIndent s)).
Proof.
  destruct s as [L R F]. cbn [leftIndent rightIndent firstLineIndent].
  unfold clamp. exact_update W.
  (erewrite round_comp; [reflexivity |]); split_minmax; lra.
Qed.

Lemma right_next (W : Q) (s : IndentState Q) (x : Q) :
  let newRightX := clamp x (Qmin W (leftIndent s + 12)) W in
  let next_rightIndent := inject_Z (Exact.round (W - newRightX)) in
  let newFirstLineX :=
    clamp (leftIndent s + firstLineIndent s) 0
      (Qmax 0 (W - next_rightIndent)) in
  rightIndent (setFromDrag_next W s mRight x) == next_rightIndent
  /\ firstLineIndent (setFromDrag_next W s mRight x)
     == inject_Z (Exact.round (newFirstLineX - leftIndent s)).
Proof.
  destruct s as [L R F]. cbv zeta. cbn [leftIndent rightIndent firstLineIndent].
  unfold clamp. exact_update W.
  assert (Exact.round
            (width - Qmin width (Qmax (Qmin width (L + 12)) x))
          = Exact.round (W - Qmin W (Qmax (Qmin W (L + 12)) x))) as ER
    by (apply round_comp; split_minmax; lra).
  rewrite ER. split; [reflexivity |].
  (erewrite round_comp; [reflexivity |]); split_minmax; lra.
Qed.

Ltac view_of_next :=
  unfold positions;
  cbn [leftX rightX firstLineX];
  cbn [num add sub Exact.exact_number];
  change (inject_Z 0) with 0.

(** X4: the left marker.  With a whole track width and a whole right
    indent between 0 and the track width, an update for the left marker
    draws it at the pointer position, clamped into
    [0, max(0, rightEdge - minGap)] and rounded; the right marker stays
    where it is; and when the pointer position and the old first-line
    position are whole pixels the first-line marker stays where it is. *)
Theorem left_marker_follows (W : Q) (s : IndentState Q) (x : Q) :
  whole W -> whole (rightIndent s) -> 0 <= rightIndent s <= W ->
  let p := positions W s in
  let p' := positions W (setFromDrag_next W s mLeft x) in
  let target := clamp x 0 (Qmax 0 (W - rightIndent s - 12)) in
  leftX p' == inject_Z (Exact.round target)
  /\ (whole x -> leftX p' == target)
  /\ rightX p' = rightX p
  /\ (whole x -> whole (leftIndent s + firstLineIndent s) ->
      firstLineX p' == firstLineX p).
Proof.
  intros WW WR RR. cbv zeta.
  destruct (left_next W s x) as [EL EF]. cbv zeta in EL, EF.
  pose proof (whole_bound W (rightIndent s) WW WR) as WB.
  assert (whole (Qmax 0 (W - rightIndent s))) as WE
    by (apply whole_max; [apply (whole_inject_Z 0) | now apply whole_minus]).
  set (target := clamp x 0 (Qmax 0 (W - rightIndent s - 12))) in *.
  set (first := clamp (leftIndent s + firstLineIndent s) 0
                  (Qmax 0 (W - rightIndent s))) in *.
  assert (0 <= target <= Qmax 0 (W - rightIndent s - 12)) as [T0 T1]
    by (subst target; unfold clamp; cbn; split; split_minmax; lra).
  assert (0 <= first <= Qmax 0 (W - rightIndent s)) as [F0 F1]
    by (subst first; unfold clamp; cbn; split; split_minmax; lra).
  assert (0 <= inject_Z (Exact.round target) <= W) as RT.
  { split; [now apply round_nonneg |].
    apply Qle_trans with (Qmax 0 (W - rightIndent s - 12));
      [now apply round_le_whole | split_minmax; lra]. }
  assert (leftX (positions W (setFromDrag_next W s mLeft x))
          == inject_Z (Exact.round target)) as A.
  { view_of_next. rewrite EL. now apply clamp_inside. }
  split; [exact A |].
  split.
  { intros WX. rewrite A. apply round_whole.
    subst target. apply whole_clamp;
      [assumption | apply (whole_inject_Z 0) | assumption]. }
  split; [reflexivity |].
  intros WX WF.
  assert (whole target) as WT
    by (subst target; apply whole_clamp;
        [assumption | apply (whole_inject_Z 0) | assumption]).
  assert (whole first) as WFi
    by (subst first; apply whole_clamp;
        [assumption | apply (whole_inject_Z 0) | assumption]).
  view_of_next. rewrite EL, EF.
  rewrite (round_minus_whole first target WT).
  rewrite (round_whole target WT), (round_whole first WFi).
  assert (clamp (W - rightIndent s) 0 W == W - rightIndent s) as ER
    by (apply clamp_inside; lra).
  rewrite ER.
  assert (target + (first - target) == first) as -> by lra.
  assert (Qmax 0 (W - rightIndent s) == W - rightIndent s) as EM
    by (split_minmax; lra).
  subst first. rewrite EM.
  unfold clamp. cbn. split_minmax; lra.
Qed.

Lemma left_marker_follows_witness :
  let s := {| leftIndent := 96; rightIndent := 48; firstLineIndent := 24 |} in
  (whole 816 /\ whole (rightIndent s) /\ 0 <= rightIndent s <= 816
   /\ whole 300 /\ whole (leftIndent s + firstLineIndent s))
  /\ positions 816 s = {| leftX := 96; rightX := 768; firstLineX := 120 |}
  /\ positions 816 (setFromDrag_next 816 s mLeft 300)
     = {| leftX := 300; rightX := 768; firstLineX := 120 |}
  /\ leftX (positions 816 (setFromDrag_next 816 s mLeft 300))
     == clamp 300 0 (Qmax 0 (816 - rightIndent s - 12))
  /\ firstLineX (positions 816 (setFromDrag_next 816 s mLeft 300))
     == firstLineX (positions 816 s).
Proof.
  cbv zeta.
  assert (whole 816 /\ whole 48 /\ 0 <= 48 <= 816 /\ whole 300
          /\ whole (96 + 24))
    as (WW & WR & RR & WX & WF) by (repeat split; qdecide).
  destruct (left_marker_follows 816
              {| leftIndent := 96; rightIndent := 48; firstLineIndent := 24 |}
              300 WW WR RR) as (_ & A & _ & B).
  split; [exact (conj WW (conj WR (conj RR (conj WX WF)))) |].
  split; [reflexivity |]. split; [reflexivity |].
  exact (conj (A WX) (B WX WF)).
Defined.





End ViewFacts.

(** ** The ruler between the pointer and the editor *)

Module SyncFacts.
Import Ruler RulerView SessionFacts.

Section Events.
Context {N : Type} `{JSNumber N}.
Variable StringToNumber : string -> N.

Lemma applyToEditor_frame (next : IndentState N) (st : State N) :
  trackRef (applyToEditor next st) = trackRef st
  /\ trackWidth (applyToEditor next st) = trackWidth st
  /\ indent (applyToEditor next st) = indent st
  /\ (editor (applyToEditor next st) = None <-> editor st = None).
Proof.
  unfold applyToEditor. destruct (editor st) eqn:E; cbn; rewrite ?E;
    repeat split; congruence.
Qed.

Lemma setFromDrag_frame (ty : Marker) (x : N) (st : State N) :
  trackRef (setFromDrag ty x st) = trackRef st
  /\ (editor (setFromDrag ty x st) = None <-> editor st = None).
Proof.
  unfold setFromDrag.
  match goal with
  | |- context [applyToEditor ?n ?s] =>
      destruct (applyToEditor_frame n s) as (T & _ & _ & E)
  end.
  split; [exact T | exact E].
Qed.

Lemma consistent_initial (track : option (DOMRect N))
    (ed : option (list (IndentState N))) :
  consistent (initial track ed).
Proof. unfold consistent. cbn. intuition congruence. Qed.

Lemma consistent_refs (st st' : State N) :
  dragStateRef st' = dragStateRef st ->
  isDraggingRef st' = isDraggingRef st ->
  activeDragType st' = activeDragType st ->
  consistent st -> consistent st'.
Proof. unfold consistent. intros -> -> ->. trivial. Qed.

Lemma consistent_step (st : State N) (e : Event N) :
  consistent st -> consistent (step StringToNumber st e).
Proof.
  intros C. destruct e as [m ev | ev | ev | p h | rect]; cbn [RulerView.step].
  - unfold handleMarkerPointerDown. destruct (trackRef st); [| exact C].
    match goal with
    | |- consistent (setFromDrag ?t ?x ?s) =>
        destruct (setFromDrag_refs t x s) as (D & I & A)
    end.
    unfold consistent. rewrite D, I, A. cbn. intuition congruence.
  - unfold handleMarkerPointerMove.
    destruct (type (dragStateRef st)); [| exact C].
    destruct (other_pointer (dragStateRef st) ev); [exact C |].
    match goal with
    | |- consistent (setFromDrag ?t ?x ?s) =>
        destruct (setFromDrag_refs t x s) as (D & I & A)
    end.
    now apply (consistent_refs st).
  - unfold handleMarkerPointerUp.
    destruct (other_pointer (dragStateRef st) ev); [exact C |].
    unfold consistent. cbn. intuition congruence.
  - unfold RulerView.syncFromSelection.
    destruct (editor st); [| exact C].
    destruct (isDraggingRef st) eqn:E; [exact C |].
    apply (consistent_refs st); try reflexivity; [| exact C].
    cbn. now rewrite E.
  - destruct (trackRef st); [| exact C].
    apply (consistent_refs st); try reflexivity; exact C.
Qed.

Lemma step_frame (st : State N) (e : Event N) :
  (trackRef (step StringToNumber st e) = None <-> trackRef st = None)
  /\ (editor (step StringToNumber st e) = None <-> editor st = None).
Proof.
  destruct e as [m ev | ev | ev | p h | rect]; cbn [RulerView.step].
  - unfold handleMarkerPointerDown. destruct (trackRef st) eqn:T;
      [| rewrite T; tauto].
    match goal with
    | |- context [setFromDrag ?t ?x ?s] =>
        destruct (setFromDrag_frame t x s) as (TR & ED)
    end.
    rewrite TR. cbn [trackRef Ruler.editor] in *. rewrite ?T. split; [split; congruence | tauto].
  - unfold handleMarkerPointerMove.
    destruct (type (dragStateRef st)); [| tauto].
    destruct (other_pointer (dragStateRef st) ev); [tauto |].
    match goal with
    | |- context [setFromDrag ?t ?x ?s] =>
        destruct (setFromDrag_frame t x s) as (TR & ED)
    end.
    rewrite TR. tauto.
  - unfold handleMarkerPointerUp.
    destruct (other_pointer (dragStateRef st) ev); cbn; tauto.
  - unfold RulerView.syncFromSelection.
    destruct (editor st) eqn:E; [| rewrite E; tauto].
    destruct (isDraggingRef st); cbn; rewrite ?E; tauto.
  - destruct (trackRef st) eqn:T; [| rewrite T; tauto].
    cbn. split; [split; congruence | tauto].
Qed.

Lemma run_invariant (P : State N -> Prop) (events : list (Event N))
    (st : State N) :
  P st -> (forall s e, P s -> P (step StringToNumber s e)) -> P (run StringToNumber events st).
Proof.
  intros P0 Step. revert st P0. unfold RulerView.run.
  induction events as [| e events IH]; intros st P0; cbn; [exact P0 |].
  apply IH. now apply Step.
Qed.

End Events.

(** X7: the three records of a drag session never disagree.  After any
    sequence of pointer events, selection notifications and track resizes,
    from the ruler as it is mounted: the marker in [dragStateRef] is the
    one in the [activeDragType] cell, [isDraggingRef] is set exactly when
    there is one, and a pointer is recorded exactly when there is one. *)
Theorem session_consistent (N : Type) (J : JSNumber N)
    (StringToNumber : string -> N) (events : list (Event N))
    (track : option (DOMRect N)) (ed : option (list (IndentState N))) :
  let st := run StringToNumber events (initial track ed) in
  type (dragStateRef st) = activeDragType st
  /\ (isDraggingRef st = true <-> type (dragStateRef st) <> None)
  /\ (pointerId (dragStateRef st) <> None <-> type (dragStateRef st) <> None).
Proof.
  cbv zeta.
  apply (run_invariant StringToNumber consistent).
  - apply consistent_initial.
  - intros s e. apply consistent_step.
Qed.

(** X8: the ruler follows the selection exactly when no marker is being
    dragged.  In any state the ruler reaches, a selection or transaction
    notification changes nothing while a marker is active (so the
    transactions the ruler itself causes do not move the markers under
    the pointer); with no marker active and an editor present it sets the
    three indents to what the selection's paragraph or heading has, and
    touches nothing else. *)
Theorem selection_followed_unless_dragging (N : Type) (J : JSNumber N)
    (StringToNumber : string -> N) (events : list (Event N))
    (track : option (DOMRect N)) (sent0 : list (IndentState N))
    (paragraphAttrs headingAttrs : gmap string (AttrValue N)) :
  let st := run StringToNumber events (initial track (Some sent0)) in
  let st' := syncFromSelection StringToNumber paragraphAttrs headingAttrs st in
  (activeDragType st <> None -> st' = st)
  /\ (activeDragType st = None ->
      indent st'
      = {| leftIndent :=
             attrNumber StringToNumber paragraphAttrs headingAttrs "leftIndent";
           rightIndent :=
             attrNumber StringToNumber paragraphAttrs headingAttrs "rightIndent";
           firstLineIndent :=
             attrNumber StringToNumber paragraphAttrs headingAttrs
               "firstLineIndent" |}
      /\ editor st' = editor st
      /\ trackWidth st' = trackWidth st
      /\ dragStateRef st' = dragStateRef st).
Proof.
  cbv zeta.
  set (st := run StringToNumber events (initial track (Some sent0))).
  assert (consistent st) as (T & D & _).
  { apply (run_invariant StringToNumber consistent).
    - apply consistent_initial.
    - intros s e. apply consistent_step. }
  assert (editor st <> None) as E.
  { apply (run_invariant StringToNumber (fun s => editor s <> None)).
    - discriminate.
    - intros s e P Q. apply P. now apply (step_frame StringToNumber s e). }
  unfold syncFromSelection. destruct (editor st) eqn:Ed; [| congruence].
  split.
  - intros A. rewrite <- T in A. apply D in A. now rewrite A.
  - intros A. destruct (isDraggingRef st) eqn:I.
    + exfalso. rewrite <- T in A. now apply (proj1 D).
    + cbn. rewrite ?Ed. repeat split.
Qed.

Lemma selection_followed_unless_dragging_witness :
  let track := {| rect_left := 20; rect_width := 816 |}%Q in
  let down := PointerDown mLeft {| event_pointerId := 1; clientX := 116 |}%Q in
  let paragraphAttrs : gmap string (AttrValue Q) :=
    <["leftIndent" := ANum 48%Q]> (<["rightIndent" := ANull]> ∅) in
  let headingAttrs : gmap string (AttrValue Q) :=
    <["rightIndent" := AStr "24"]> ∅ in
  let Number := fun s : string => if String.eqb s "24" then 24%Q else 0%Q in
  let mounted := run Number [TrackResized track] (initial (Some track) (Some [])) in
  let dragging :=
    run Number [TrackResized track; down] (initial (Some track) (Some [])) in
  (activeDragType mounted = None /\ activeDragType dragging <> None)
  /\ indent dragging
     = {| leftIndent := 96; rightIndent := 0; firstLineIndent := -96 |}%Q
  /\ syncFromSelection Number paragraphAttrs headingAttrs dragging = dragging
  /\ indent (syncFromSelection Number paragraphAttrs headingAttrs mounted)
     = {| leftIndent := 48; rightIndent := 24; firstLineIndent := 0 |}%Q.
Proof.
  cbv zeta.
  set (track := {| rect_left := 20%Q; rect_width := 816%Q |}).
  set (down := PointerDown mLeft {| event_pointerId := 1; clientX := 116%Q |}).
  set (Number := fun s : string => if String.eqb s "24" then 24%Q else 0%Q).
  set (p := <["leftIndent" := ANum 48%Q]> (<["rightIndent" := ANull]> ∅)
            : gmap string (AttrValue Q)).
  set (h := <["rightIndent" := AStr "24"]> ∅ : gmap string (AttrValue Q)).
  assert (activeDragType
            (run Number [TrackResized track] (initial (Some track) (Some [])))
          = None) as Idle by reflexivity.
  assert (activeDragType
            (run Number [TrackResized track; down]
               (initial (Some track) (Some [])))
          <> None) as Active by discriminate.
  destruct (selection_followed_unless_dragging Q _ Number
              [TrackResized track; down] (Some track) [] p h) as [Kept _].
  destruct (selection_followed_unless_dragging Q _ Number
              [TrackResized track] (Some track) [] p h) as [_ Read].
  split; [exact (conj Idle Active) |].
  split; [vm_compute; reflexivity |].
  split; [exact (Kept Active) |].
  rewrite (proj1 (Read Idle)). vm_compute. reflexivity.
Defined.

(** X9: whatever the event, the editor is sent nothing or exactly one
    update, and that update is the indents the ruler then holds.  Without
    an editor nothing is sent. *)
Theorem one_update_per_event (N : Type) (J : JSNumber N)
    (StringToNumber : string -> N) (st : State N) (e : Event N) :
  let st' := step StringToNumber st e in
  (editor st' = editor st
   \/ exists sent, editor st = Some sent
                   /\ editor st' = Some (sent ++ [indent st']))
  /\ (editor st = None -> editor st' = None).
Proof.
  cbv zeta.
  assert (forall ty x s,
            (editor (setFromDrag ty x s) = editor s
             \/ exists sent, editor s = Some sent
                  /\ editor (setFromDrag ty x s)
                     = Some (sent ++ [indent (setFromDrag ty x s)]))
            /\ (editor s = None -> editor (setFromDrag ty x s) = None))
    as Drag.
  { intros ty x s. unfold setFromDrag, applyToEditor. cbn [Ruler.editor].
    destruct (editor s) as [sent |] eqn:E; cbn.
    - split; [right; exists sent; split; reflexivity | discriminate].
    - rewrite ?E. split; [left |]; reflexivity. }
  destruct e as [m ev | ev | ev | p h | rect]; cbn [step].
  - unfold handleMarkerPointerDown.
    destruct (trackRef st); [| split; [left |]; trivial].
    match goal with
    | |- context [setFromDrag ?t ?x ?s] => exact (Drag t x s)
    end.
  - unfold handleMarkerPointerMove.
    destruct (type (dragStateRef st)); [| split; [left |]; trivial].
    destruct (other_pointer (dragStateRef st) ev); [split; [left |]; trivial |].
    apply Drag.
  - unfold handleMarkerPointerUp.
    destruct (other_pointer (dragStateRef st) ev); split; try left; trivial.
  - unfold syncFromSelection.
    destruct (editor st) eqn:E; [| rewrite E; split; [left |]; trivial].
    destruct (isDraggingRef st); cbn; rewrite ?E; split;
      try left; trivial; discriminate.
  - destruct (trackRef st); cbn; split; try left; trivial.
Qed.

Lemma one_update_per_event_witness :
  let track := {| rect_left := 20; rect_width := 816 |}%Q in
  let Number := fun _ : string => 0%Q in
  let st := update (initial (Some track) (Some [])) in
  let bare := update (initial (Some track) None) in
  let down := PointerDown mRight {| event_pointerId := 1; clientX := 720 |}%Q in
  editor bare = None
  /\ editor (step Number bare down) = None
  /\ indent (step Number bare down)
     = {| leftIndent := 0; rightIndent := 116; firstLineIndent := 0 |}%Q
  /\ editor (step Number st down)
     = Some [{| leftIndent := 0; rightIndent := 116;
                firstLineIndent := 0 |}%Q].
Proof.
  cbv zeta.
  set (track := {| rect_left := 20%Q; rect_width := 816%Q |}).
  set (down := PointerDown mRight {| event_pointerId := 1; clientX := 720%Q |}).
  assert (editor (update (initial (Some track) None)) = None) as Bare
    by reflexivity.
  split; [exact Bare |].
  split;
    [exact (proj2 (one_update_per_event Q _ (fun _ => 0%Q)
                     (update (initial (Some track) None)) down) Bare) |].
  split; vm_compute; reflexivity.
Defined.

(** In exact arithmetic [|| 0] changes no number. *)
Lemma attrNumber_exact (Number : string -> Q)
    (p h : gmap string (AttrValue Q)) (name : string) (n : Q) :
  nullish_or (p !! name) (h !! name) = Some (ANum n) ->
  (attrNumber Number p h name == n)%Q.
Proof.
  intros E. unfold attrNumber.
  assert (nullish_or (p !! name)
            (nullish_or (h !! name) (Some (ANum (num 0))))
          = Some (ANum n)) as ->.
  { destruct (p !! name) as [[| |] |]; cbn in *; try exact E;
      destruct (h !! name) as [[| |] |]; cbn in *; congruence. }
  apply width_eq.
Qed.

(** X10: releasing a marker does not move it.  A pointer-move of the
    session's pointer sends the editor the indents the ruler holds; after
    the pointer-up of that pointer, a notification from a selection whose
    paragraph (or, failing that, heading) carries those indents leaves the
    ruler with the same three numbers. *)
Theorem release_reads_back (Number : string -> Q) (st : State Q)
    (m : Marker) (ev : PointerEvent Q) (sent : list (IndentState Q))
    (p h : gmap string (AttrValue Q)) :
  dragStateRef st
  = {| type := Some m; pointerId := Some (event_pointerId ev) |} ->
  editor st = Some sent ->
  let moved := handleMarkerPointerMove ev st in
  let released := handleMarkerPointerUp ev moved in
  let synced := syncFromSelection Number p h released in
  editor released = Some (sent ++ [indent moved])
  /\ indent released = indent moved
  /\ (nullish_or (p !! "leftIndent") (h !! "leftIndent")
      = Some (ANum (leftIndent (indent moved))) ->
      nullish_or (p !! "rightIndent") (h !! "rightIndent")
      = Some (ANum (rightIndent (indent moved))) ->
      nullish_or (p !! "firstLineIndent") (h !! "firstLineIndent")
      = Some (ANum (firstLineIndent (indent moved))) ->
      (leftIndent (indent synced) == leftIndent (indent moved)
       /\ rightIndent (indent synced) == rightIndent (indent moved)
       /\ firstLineIndent (indent synced) == firstLineIndent (indent moved))%Q
      /\ editor synced = editor released).
Proof.
  intros D E. cbv zeta.
  assert (other_pointer (dragStateRef st) ev = false) as O
    by (unfold other_pointer; rewrite D; cbn; now rewrite Z.eqb_refl).
  assert (handleMarkerPointerMove ev st
          = setFromDrag m (getRelativeX ev st) st) as ->
    by (unfold handleMarkerPointerMove; now rewrite O, D).
  set (moved := setFromDrag m (getRelativeX ev st) st).
  assert (dragStateRef moved = dragStateRef st) as DM
    by apply setFromDrag_refs.
  assert (editor moved = Some (sent ++ [indent moved])) as EM
    by (subst moved; unfold setFromDrag, applyToEditor; cbn [Ruler.editor];
        now rewrite E).
  unfold handleMarkerPointerUp. rewrite DM, O.
  split; [exact EM |]. split; [reflexivity |].
  intros PL PR PF. unfold syncFromSelection. cbn [Ruler.editor isDraggingRef].
  rewrite EM. cbn [indent leftIndent rightIndent firstLineIndent Ruler.editor].
  split; [| reflexivity].
  split; [| split]; now apply attrNumber_exact.
Qed.

Lemma release_reads_back_witness :
  let track := {| rect_left := 20; rect_width := 816 |}%Q in
  let Number := fun _ : string => 0%Q in
  let down := {| event_pointerId := 1; clientX := 116 |}%Q in
  let move := {| event_pointerId := 1; clientX := 212 |}%Q in
  let st :=
    handleMarkerPointerDown mLeft down (update (initial (Some track) (Some []))) in
  let next := {| leftIndent := 192; rightIndent := 0;
                 firstLineIndent := -192 |}%Q in
  let h : gmap string (AttrValue Q) :=
    <["leftIndent" := ANum 192%Q]>
      (<["rightIndent" := ANum 0%Q]>
         (<["firstLineIndent" := ANum (-192)%Q]> ∅)) in
  let released := handleMarkerPointerUp move (handleMarkerPointerMove move st) in
  indent (handleMarkerPointerMove move st) = next
  /\ editor released
     = Some [{| leftIndent := 96; rightIndent := 0;
                firstLineIndent := -96 |}%Q; next]
  /\ (leftIndent (indent (syncFromSelection Number ∅ h released)) == 192
      /\ rightIndent (indent (syncFromSelection Number ∅ h released)) == 0
      /\ firstLineIndent (indent (syncFromSelection Number ∅ h released))
         == -192)%Q.
Proof.
  cbv zeta.
  set (track := {| rect_left := 20%Q; rect_width := 816%Q |}).
  set (down := {| event_pointerId := 1%Z; clientX := 116%Q |}).
  set (move := {| event_pointerId := 1%Z; clientX := 212%Q |}).
  set (st := handleMarkerPointerDown mLeft down
               (update (initial (Some track) (Some [])))).
  set (h := <["leftIndent" := ANum 192%Q]>
              (<["rightIndent" := ANum 0%Q]>
                 (<["firstLineIndent" := ANum (-192)%Q]> ∅))
            : gmap string (AttrValue Q)).
  assert (dragStateRef st
          = {| type := Some mLeft;
               pointerId := Some (event_pointerId move) |}) as D
    by reflexivity.
  assert (editor st
          = Some [{| leftIndent := 96%Q; rightIndent := 0%Q;
                     firstLineIndent := (-96)%Q |}]) as E
    by (vm_compute; reflexivity).
  assert (indent (handleMarkerPointerMove move st)
          = {| leftIndent := 192%Q; rightIndent := 0%Q;
               firstLineIndent := (-192)%Q |}) as Next
    by (vm_compute; reflexivity).
  destruct (release_reads_back (fun _ => 0%Q) st mLeft move _ ∅ h D E)
    as (Sent & _ & Back).
  split; [exact Next |].
  split; [rewrite Sent, Next; reflexivity |].
  rewrite Next in Back.
  destruct (Back eq_refl eq_refl eq_refl) as [Same _].
  exact Same.
Defined.

(** X11: on binary64 numbers, whatever the editor reports for an
    attribute (a number, NaN included, a string, null or nothing) and
    whatever number a string converts to, the indent the ruler reads is
    never NaN, and never the negative zero. *)
Theorem attrNumber_never_NaN (Number : string -> float)
    (p h : gmap string (AttrValue float)) (name : string) :
  let n := attrNumber Number p h name in
  PrimFloat.is_nan n = false
  /\ (PrimFloat.is_zero n = false \/ n = 0%float).
Proof.
  cbv zeta. unfold attrNumber.
  match goal with
  | |- context [if truthy ?v then _ else _] => generalize v
  end.
  intros v. destruct (truthy v) eqn:T.
  - change (negb (PrimFloat.is_zero v || PrimFloat.is_nan v) = true) in T.
    apply negb_true_iff, orb_false_iff in T as [Z Na].
    split; [exact Na | left; exact Z].
  - split; [reflexivity | right; reflexivity].
Qed.

End SyncFacts.

(** ** Ticks and tooltips *)

Module TickFacts.
Import Ruler RulerView ProseMirror.
Local Open Scope Q_scope.

Lemma truncate_whole (q : Q) (z : Z) : q == inject_Z z -> truncate q = z.
Proof.
  intros E. unfold truncate.
  destruct (Qnum q <? 0)%Z.
  - now rewrite (Qceiling_comp _ _ E), Qceiling_Z.
  - now rewrite (Qfloor_comp _ _ E), Qfloor_Z.
Qed.

Lemma tickAt_exact (k : nat) :
  tickAt k
  = {| tick_x := inject_Z (Z.of_nat k) * 96; tick_label := pretty k |}.
Proof. reflexivity. Qed.

Lemma majorTicks_unfold (W : Q) :
  majorTicks W
  = if Qeq_bool W 0 then Ok []
    else if (2 ^ 32 - 1 <? clampLength (Qfloor (W / 96) + 1))%Z
         then Throw "Invalid array length"
         else Ok (tickAt
                    <$> seq 0 (Z.to_nat (clampLength (Qfloor (W / 96) + 1)))).
Proof.
  unfold majorTicks.
  cbn [truthy num add mul div Math_floor Exact.exact_number ToLength exact_ops].
  rewrite (truncate_whole _ (Qfloor (W / 96) + 1))
    by (rewrite inject_Z_plus; reflexivity).
  destruct (Qeq_bool W 0); reflexivity.
Qed.

Lemma floor_bounds (W : Q) :
  inject_Z (Qfloor (W / 96)) * 96 <= W
  /\ W < (inject_Z (Qfloor (W / 96)) + 1) * 96.
Proof.
  pose proof (Qfloor_le (W / 96)) as Lo.
  pose proof (Qlt_floor (W / 96)) as Hi.
  rewrite inject_Z_plus in Hi. change (inject_Z 1) with 1 in Hi.
  assert (W == W / 96 * 96) as E by (field; discriminate).
  revert Lo Hi E. generalize (W / 96). generalize (inject_Z (Qfloor (W / 96))).
  intros c q Lo Hi E. lra.
Qed.

Lemma ticks_lookup (n k : nat) (t : Tick Q) :
  (tickAt <$> seq 0 n) !! k = Some t ->
  t = {| tick_x := inject_Z (Z.of_nat k) * 96; tick_label := pretty k |}
  /\ (k < n)%nat.
Proof.
  rewrite list_lookup_fmap.
  destruct (seq 0 n !! k) as [i |] eqn:E; [| discriminate].
  apply lookup_seq in E as [-> Lt]. cbn. intros [= <-].
  split; [reflexivity | lia].
Qed.

Lemma majorTicks_lookup (W : Q) (ticks : list (Tick Q)) (k : nat) (t : Tick Q) :
  majorTicks W = Ok ticks -> ticks !! k = Some t ->
  t = {| tick_x := inject_Z (Z.of_nat k) * 96; tick_label := pretty k |}.
Proof.
  rewrite majorTicks_unfold.
  destruct (Qeq_bool W 0); [intros [= <-]; discriminate |].
  destruct (_ <? _)%Z; [discriminate |].
  intros [= <-] L. now apply ticks_lookup in L.
Qed.

(** X12: the major ticks.  A track of width 0 or less has none.  A track
    of positive width (below 96 * (2^32 - 1) pixels) has
    [floor(trackWidth / 96) + 1] of them; the tick of index [k] is at
    [96 * k] and is labelled [k]; every tick is on the track and the last
    one is less than an inch from its end.  From 96 * (2^32 - 1) pixels on,
    [Array.from] throws. *)
Theorem majorTicks_exact (W : Q) :
  (W <= 0 -> majorTicks W = Ok [])
  /\ (0 < W -> W < inject_Z (96 * (2 ^ 32 - 1)) ->
      exists ticks last,
        majorTicks W = Ok ticks
        /\ length ticks = Z.to_nat (Qfloor (W / 96) + 1)
        /\ (forall k t, ticks !! k = Some t ->
              t = {| tick_x := inject_Z (Z.of_nat k) * 96;
                     tick_label := pretty k |}
              /\ 0 <= tick_x t <= W)
        /\ ticks !! (length ticks - 1)%nat = Some last
        /\ W - 96 < tick_x last)
  /\ (inject_Z (96 * (2 ^ 32 - 1)) <= W ->
      majorTicks W = Throw "Invalid array length").
Proof.
  rewrite majorTicks_unfold.
  destruct (floor_bounds W) as [Lo Hi].
  set (c := Qfloor (W / 96)) in *.
  split; [| split].
  - intros Neg. destruct (Qeq_bool W 0) eqn:E; [reflexivity |].
    assert (W < 0) as Neg'.
    { apply Qeq_bool_neq in E. apply Qle_lteq in Neg as [? | ?];
        [assumption | contradiction]. }
    assert (c + 1 <= 0)%Z as C.
    { apply Zle_of_Qlt. rewrite inject_Z_plus.
      change (inject_Z 1) with 1. change (inject_Z 0) with 0. lra. }
    unfold clampLength.
    replace (Z.max 0 (Z.min (c + 1) (2 ^ 53 - 1))) with 0%Z by lia.
    reflexivity.
  - intros Pos Small.
    assert (Qeq_bool W 0 = false) as ->
      by (apply not_true_iff_false; intros E; apply Qeq_bool_iff in E; lra).
    assert (0 <= c)%Z as C0.
    { apply Zle_of_Qlt. change (inject_Z 0) with 0. lra. }
    assert (c + 1 <= 2 ^ 32 - 1)%Z as C1.
    { apply Zle_of_Qlt. rewrite inject_Z_plus. change (inject_Z 1) with 1.
      change (inject_Z (96 * (2 ^ 32 - 1))) with 412316860320 in Small.
      change (inject_Z (2 ^ 32 - 1)) with 4294967295. lra. }
    assert (clampLength (c + 1) = (c + 1)%Z) as CL
      by (unfold clampLength; lia).
    rewrite CL.
    assert ((2 ^ 32 - 1 <? c + 1)%Z = false) as -> by lia.
    set (ticks := tickAt <$> seq 0 (Z.to_nat (c + 1))).
    assert (length ticks = Z.to_nat (c + 1)) as Len
      by (subst ticks; now rewrite length_fmap, length_seq).
    assert (ticks !! Z.to_nat c
            = Some {| tick_x := inject_Z c * 96;
                      tick_label := pretty (Z.to_nat c) |}) as Last.
    { subst ticks. rewrite list_lookup_fmap.
      rewrite (lookup_seq_lt 0 (Z.to_nat (c + 1)) (Z.to_nat c)) by lia.
      cbn [fmap option_fmap option_map Nat.add].
      now rewrite tickAt_exact, (Z2Nat.id c C0). }
    exists ticks.
    exists {| tick_x := inject_Z c * 96; tick_label := pretty (Z.to_nat c) |}.
    split; [reflexivity |]. split; [exact Len |].
    split; [| split].
    + intros k t L. apply ticks_lookup in L as [-> Lt].
      split; [reflexivity |]. cbn [tick_x].
      assert (inject_Z 0 <= inject_Z (Z.of_nat k) <= inject_Z c) as [K0 K1]
        by (split; rewrite <- Zle_Qle; lia).
      change (inject_Z 0) with 0 in K0. split; nra.
    + rewrite Len. replace (Z.to_nat (c + 1) - 1)%nat with (Z.to_nat c) by lia.
      exact Last.
    + cbn [tick_x]. lra.
  - intros Big.
    assert (Qeq_bool W 0 = false) as ->.
    { apply not_true_iff_false. intros E. apply Qeq_bool_iff in E.
      change (inject_Z (96 * (2 ^ 32 - 1))) with 412316860320 in Big. lra. }
    assert (2 ^ 32 - 1 <= c)%Z as C.
    { apply Zle_of_Qlt.
      change (inject_Z (96 * (2 ^ 32 - 1))) with 412316860320 in Big.
      change (inject_Z (2 ^ 32 - 1)) with 4294967295. lra. }
    assert ((2 ^ 32 - 1 <? clampLength (c + 1))%Z = true) as ->
      by (unfold clampLength; lia).
    reflexivity.
Qed.

Lemma majorTicks_exact_witness :
  (0 < 816 /\ 816 < inject_Z (96 * (2 ^ 32 - 1)))
  /\ (exists ticks last,
        majorTicks 816 = Ok ticks
        /\ length ticks = 9%nat
        /\ ticks !! 8%nat = Some last
        /\ tick_x last == 768
        /\ tick_label last = "8"
        /\ 816 - 96 < tick_x last)
  /\ majorTicks (-20) = Ok [].
Proof.
  assert (0 < 816 /\ 816 < inject_Z (96 * (2 ^ 32 - 1))) as [Pos Small]
    by (split; reflexivity).
  assert (-20 <= 0) as Neg by discriminate.
  split; [exact (conj Pos Small) |].
  split; [| exact (proj1 (majorTicks_exact (-20)) Neg)].
  destruct (proj1 (proj2 (majorTicks_exact 816)) Pos Small)
    as (ticks & last & E & Len & All & Last & Near).
  exists ticks, last.
  change (Z.to_nat (Qfloor (816 / 96) + 1)) with 9%nat in Len.
  rewrite Len in Last. cbn [Nat.sub] in Last.
  destruct (All _ _ Last) as [-> _].
  repeat split; try assumption; reflexivity.
Defined.

(** X13: the ticks of one ruler have pairwise different positions (their
    React keys) and pairwise different labels. *)
Theorem majorTicks_keys_distinct (W : Q) (ticks : list (Tick Q))
    (i j : nat) (ti tj : Tick Q) :
  majorTicks W = Ok ticks ->
  ticks !! i = Some ti -> ticks !! j = Some tj ->
  tick_x ti == tick_x tj \/ tick_label ti = tick_label tj ->
  i = j.
Proof.
  intros E Li Lj Same.
  rewrite (majorTicks_lookup W ticks i ti E Li) in Same.
  rewrite (majorTicks_lookup W ticks j tj E Lj) in Same.
  cbn [tick_x tick_label] in Same. destruct Same as [X | L].
  - assert (inject_Z (Z.of_nat i) == inject_Z (Z.of_nat j)) as I by lra.
    apply Nat2Z.inj. now apply inject_Z_injective.
  - now apply (inj pretty) in L.
Qed.

Lemma majorTicks_keys_distinct_witness :
  let ticks : list (Tick Q) := tickAt <$> seq 0 3 in
  majorTicks 200 = Ok ticks
  /\ (forall tj, ticks !! 1%nat = Some tj ->
        tick_x {| tick_x := 96; tick_label := "1" |} == tick_x tj
        \/ tick_label {| tick_x := 96; tick_label := "1" |} = tick_label tj)
  /\ forall j tj, ticks !! j = Some tj -> tick_label tj = "1" -> 1%nat = j.
Proof.
  cbv zeta.
  assert (majorTicks 200 = Ok (tickAt <$> seq 0 3)) as E by reflexivity.
  split; [exact E |].
  split; [intros tj [= <-]; right; reflexivity |].
  intros j tj Lj Lab.
  apply (majorTicks_keys_distinct 200 _ 1 j
           {| tick_x := inject_Z 1 * 96; tick_label := "1" |} tj E);
    [reflexivity | exact Lj | right; symmetry; exact Lab].
Defined.

(** The same ticks on binary64 numbers, for a track 816 pixels (8.5
    inches) wide. *)
Example majorTicks_binary64 :
  majorTicks 816%float
  = Ok [ {| tick_x := 0; tick_label := "0" |};
         {| tick_x := 96; tick_label := "1" |};
         {| tick_x := 192; tick_label := "2" |};
         {| tick_x := 288; tick_label := "3" |};
         {| tick_x := 384; tick_label := "4" |};
         {| tick_x := 480; tick_label := "5" |};
         {| tick_x := 576; tick_label := "6" |};
         {| tick_x := 672; tick_label := "7" |};
         {| tick_x := 768; tick_label := "8" |} ]%float
  /\ majorTicks 0%float = Ok []
  /\ majorTicks nan = Ok []
  /\ majorTicks (-20)%float = Ok []
  /\ majorTicks infinity = Throw "Invalid array length".
Proof. repeat split; vm_compute; reflexivity. Qed.

(** X14: the tooltip.  The number [formatInches] shows is within half a
    hundredth of the position in inches, is a whole number of hundredths,
    and is the position in inches itself when that is a whole number of
    hundredths. *)
Theorem formatInches_rounded_close (px : Q) :
  let rounded := formatInches_rounded px in
  Qabs (rounded - px / 96) <= 1 # 200
  /\ whole (rounded * 100)
  /\ (whole (px / 96 * 100) -> rounded == px / 96).
Proof.
  cbv zeta. unfold formatInches_rounded, pxPerInch.
  cbn [num mul div Math_round Exact.exact_number].
  change (inject_Z 96) with 96. change (inject_Z 100) with 100.
  pose proof (round_lower (px / 96 * 100)) as Lo.
  pose proof (round_upper (px / 96 * 100)) as Hi.
  split; [| split].
  - apply Qabs_Qle_condition.
    revert Lo Hi. generalize (inject_Z (Exact.round (px / 96 * 100))).
    generalize (px / 96). intros q z Lo Hi.
    assert (z / 100 == z * (1 # 100)) as -> by (field; try discriminate).
    split; lra.
  - assert (inject_Z (Exact.round (px / 96 * 100)) / 100 * 100
            == inject_Z (Exact.round (px / 96 * 100))) as ->
      by (field; try discriminate).
    apply whole_inject_Z.
  - intros Wh. rewrite (round_whole _ Wh). field; try discriminate.
Qed.

Lemma formatInches_rounded_close_witness :
  whole (120 / 96 * 100)
  /\ formatInches_rounded 120 == 5 # 4
  /\ formatInches_rounded 100 == 26 # 25
  /\ Qabs (formatInches_rounded 100 - 100 / 96) <= 1 # 200.
Proof.
  assert (whole (120 / 96 * 100)) as Wh by reflexivity.
  split; [exact Wh |].
  split; [rewrite (proj2 (proj2 (formatInches_rounded_close 120)) Wh);
          reflexivity |].
  split; [reflexivity |].
  exact (proj1 (formatInches_rounded_close 100)).
Defined.

(** The same on binary64 numbers: 100 pixels show as 1.04 (the float
    nearest to it), 120 as 1.25. *)
Example formatInches_binary64 :
  formatInches_rounded 100%float = 0x1.0a3d70a3d70a4p+0%float
  /\ formatInches_rounded 120%float = 1.25%float
  /\ formatInches_rounded 0%float = 0%float.
Proof. repeat split; vm_compute; reflexivity. Qed.

End TickFacts.

(** ** The page over its lifetime *)

Module PageFacts.
Import Home HomeView HomeFacts.

Section Lifetime.
Context {N : Type} `{JSNumber N}.

Lemma handleAll_snoc (events : list (Event N)) (e : Event N) (st : State N) :
  handleAll (events ++ [e]) st = handle e (handleAll events st).
Proof. unfold handleAll. now rewrite fold_left_app. Qed.

Lemma handleAll_wired (events : list (Event N)) (st : State N) :
  wired st -> wired (handleAll events st).
Proof.
  unfold handleAll. revert st.
  induction events as [| e events IH]; intros st Wd; cbn; [exact Wd |].
  apply IH. now apply handled_wired.
Qed.

(** Without listeners an event changes what the container measures and
    nothing else. *)
Lemma handle_detached (e : Event N) (st : State N) :
  listeners st = [] ->
  listeners (handle e st) = []
  /\ pageCount (handle e st) = pageCount st
  /\ currentPage (handle e st) = currentPage st.
Proof.
  intros L. unfold handle, notify.
  assert (listeners (measure e st) = []) as ->
    by (unfold measure; destruct e, (editorRef st); exact L).
  cbn. unfold measure. destruct e, (editorRef st); repeat split; exact L.
Qed.

Lemma handleAll_detached (events : list (Event N)) (st : State N) :
  listeners st = [] ->
  pageCount (handleAll events st) = pageCount st
  /\ currentPage (handleAll events st) = currentPage st.
Proof.
  unfold handleAll. revert st.
  induction events as [| e events IH]; intros st L; cbn; [split; reflexivity |].
  destruct (handle_detached e st L) as (L' & P & C).
  destruct (IH _ L') as [P' C']. split; congruence.
Qed.

End Lifetime.

(** X15: the last event decides.  On a page whose two effects have run,
    after any sequence of scrolls, document updates, selection updates
    and resizes, the badge shows the estimate for the container as it is
    as soon as the last event is not a resize. *)
Theorem last_event_in_sync (N : Type) (J : JSNumber N) (st : State N)
    (events : list (Event N)) (e : Event N) :
  wired st -> trigger e <> ContainerResize ->
  in_sync (handleAll (events ++ [e]) st)
  /\ wired (handleAll (events ++ [e]) st).
Proof.
  intros Wd T. rewrite handleAll_snoc. split.
  - apply handled_in_sync; [now apply handleAll_wired | exact T].
  - apply handled_wired. now apply handleAll_wired.
Qed.

Lemma last_event_in_sync_witness :
  let st :=
    editorCreated
      (mount (initial (Some {| scrollHeight := 1000; scrollTop := 0 |})
                1))%float in
  let events :=
    [Updated {| scrollHeight := 2500; scrollTop := 0 |};
     Resized {| scrollHeight := 5000; scrollTop := 0 |};
     Scrolled 2200]%float in
  (wired st /\ trigger (Scrolled 2200%float) <> ContainerResize)
  /\ (pageCount (handleAll events st), currentPage (handleAll events st))
     = (5, 3)%float
  /\ in_sync (handleAll events st).
Proof.
  cbv zeta.
  assert (wired
            (editorCreated
               (mount (initial (Some {| scrollHeight := 1000%float;
                                        scrollTop := 0%float |})
                         1%float)))) as Wd
    by (vm_compute; reflexivity).
  assert (trigger (Scrolled 2200%float) <> ContainerResize) as T
    by discriminate.
  split; [exact (conj Wd T) |].
  split; [vm_compute; reflexivity |].
  exact (proj1 (last_event_in_sync float _ _
                  [Updated {| scrollHeight := 2500%float;
                              scrollTop := 0%float |};
                   Resized {| scrollHeight := 5000%float;
                              scrollTop := 0%float |}]
                  (Scrolled 2200%float) Wd T)).
Defined.

(** X16: unmounting leaves no listener behind.  Whether or not the editor
    had arrived, after the cleanups of the two effects no listener is
    registered, and no later event changes the page count or the current
    page. *)
Theorem unmount_detaches (N : Type) (J : JSNumber N)
    (container : option (Container N)) (dpr : N) (arrived : bool)
    (events : list (Event N)) :
  let page := mount (initial container dpr) in
  let st := unmount (if arrived then editorCreated page else page) in
  listeners st = []
  /\ pageCount (handleAll events st) = pageCount st
  /\ currentPage (handleAll events st) = currentPage st.
Proof.
  cbv zeta.
  assert (listeners
            (unmount (if arrived
                      then editorCreated (mount (initial container dpr))
                      else mount (initial container dpr))) = []) as L.
  { unfold mount, editorCreated, editorEffect, scrollEffect, initial.
    destruct arrived, container as [c |]; cbn -[estimate];
      try reflexivity; destruct (estimate dpr c); reflexivity. }
  split; [exact L |]. now apply handleAll_detached.
Qed.

(** *** Exact arithmetic *)

Section ExactPage.
Local Open Scope Q_scope.

Lemma pages_exact (dpr : Q) (c : Container Q) :
  0 < dpr ->
  exists pages page : Z,
    fst (estimate dpr c) = inject_Z pages
    /\ snd (estimate dpr c) == inject_Z page
    /\ pages = Z.max 1 (Qceiling (scrollHeight c / 1056))
    /\ page = Z.min pages (Z.max 1 (Qfloor (scrollTop c / 1056) + 1)).
Proof.
  intros P. destruct (estimate_exact dpr c P) as [E1 E2].
  eexists _, _. split; [exact E1 |]. split; [exact E2 |]. split; reflexivity.
Qed.

Lemma ceiling_eq (q : Q) (n : Z) :
  inject_Z n - 1 < q -> q <= inject_Z n -> Qceiling q = n.
Proof.
  intros Lo Hi. pose proof (Qle_ceiling q) as A.
  pose proof (Qceiling_lt q) as B.
  replace (Qceiling q - 1)%Z with (Qceiling q + - 1)%Z in B by lia.
  rewrite inject_Z_plus in B. change (inject_Z (-1)) with (-1) in B.
  apply Z.le_antisymm; apply Zle_of_Qlt; lra.
Qed.

Lemma floor_eq (q : Q) (n : Z) :
  inject_Z n <= q -> q < inject_Z n + 1 -> Qfloor q = n.
Proof.
  intros Lo Hi. pose proof (Qfloor_le q) as A.
  pose proof (Qlt_floor q) as B.
  rewrite inject_Z_plus in B. change (inject_Z 1) with 1 in B.
  apply Z.le_antisymm; apply Zle_of_Qlt; lra.
Qed.

End ExactPage.

(** X17: the badge is always shown and always in range.  For a positive
    device pixel ratio and any container measurements (negative ones
    included), in exact arithmetic the estimator gives whole numbers with
    [1 <= currentPage <= pageCount], and [PageInfo] renders them. *)
Theorem page_in_range (dpr : Q) (c : Container Q) :
  (0 < dpr)%Q ->
  let pageCount := fst (estimate dpr c) in
  let currentPage := snd (estimate dpr c) in
  (1 <= currentPage /\ currentPage <= pageCount)%Q
  /\ whole pageCount /\ whole currentPage
  /\ PageInfo pageCount currentPage = Some (currentPage, pageCount).
Proof.
  intros P. cbv zeta.
  destruct (pages_exact dpr c P) as (pages & page & E1 & E2 & Dp & Dc).
  rewrite E1.
  assert (1 <= page <= pages)%Z as [Lo Hi] by lia.
  assert (1 <= pages)%Z as Pg by lia.
  rewrite Zle_Qle in Lo, Hi, Pg. change (inject_Z 1) with 1%Q in Lo, Pg.
  split; [rewrite E2; split; assumption |].
  split; [apply whole_inject_Z |].
  split; [rewrite E2; apply whole_inject_Z |].
  unfold PageInfo. cbn [truthy Exact.exact_number].
  destruct (Qeq_bool (inject_Z pages) 0) eqn:Z; [| reflexivity].
  apply Qeq_bool_iff in Z. lra.
Qed.

Lemma page_in_range_witness :
  let c := {| scrollHeight := -40; scrollTop := -300 |}%Q in
  (0 < 2)%Q
  /\ estimate 2%Q c = (1, 1)%Q
  /\ PageInfo (fst (estimate 2%Q c)) (snd (estimate 2%Q c)) = Some (1, 1)%Q.
Proof.
  cbv zeta. assert (0 < 2)%Q as P by reflexivity.
  split; [exact P |]. split; [reflexivity |].
  rewrite (proj2 (proj2 (proj2 (page_in_range 2
             {| scrollHeight := (-40)%Q; scrollTop := (-300)%Q |} P)))).
  reflexivity.
Defined.

(** X18: which page.  For a positive device pixel ratio, in exact
    arithmetic: content of a height in (1056 (n - 1), 1056 n] counts [n]
    pages, for [n >= 1], and content of height 1056 or less counts one; a
    scroll offset in [1056 (k - 1), 1056 k) shows page [k], for [k >= 1],
    or the last page if there are fewer than [k], and an offset below
    1056, negative ones included, shows page 1. *)
Theorem page_bands (dpr : Q) (c : Container Q) :
  (0 < dpr)%Q ->
  let pageCount := fst (estimate dpr c) in
  let currentPage := snd (estimate dpr c) in
  (forall n : Z, (1 <= n)%Z ->
     (1056 * (inject_Z n - 1) < scrollHeight c)%Q ->
     (scrollHeight c <= 1056 * inject_Z n)%Q ->
     pageCount = inject_Z n)
  /\ ((scrollHeight c <= 1056)%Q -> pageCount = 1%Q)
  /\ (forall k : Z, (1 <= k)%Z ->
        (1056 * (inject_Z k - 1) <= scrollTop c)%Q ->
        (scrollTop c < 1056 * inject_Z k)%Q ->
        (currentPage == Qmin pageCount (inject_Z k))%Q)
  /\ ((scrollTop c < 1056)%Q -> (currentPage == 1)%Q).
Proof.
  intros P. cbv zeta.
  destruct (pages_exact dpr c P) as (pages & page & E1 & E2 & Dp & Dc).
  rewrite E1.
  assert (forall q : Q, (q / 1056 * 1056 == q)%Q) as Back
    by (intros q; field).
  pose proof (Back (scrollHeight c)) as BH.
  pose proof (Back (scrollTop c)) as BT.
  pose proof (Qle_ceiling (scrollHeight c / 1056)) as CA.
  pose proof (Qlt_floor (scrollTop c / 1056)) as FB.
  rewrite inject_Z_plus in FB. change (inject_Z 1) with 1%Q in FB.
  split; [| split; [| split]].
  - intros n N1 Lo Hi. f_equal. rewrite Dp.
    rewrite (ceiling_eq (scrollHeight c / 1056) n); [lia | lra | lra].
  - intros Hi. change 1%Q with (inject_Z 1). f_equal. rewrite Dp.
    assert (Qceiling (scrollHeight c / 1056) <= 1)%Z; [| lia].
    pose proof (Qceiling_lt (scrollHeight c / 1056)) as B.
    replace (Qceiling (scrollHeight c / 1056) - 1)%Z
      with (Qceiling (scrollHeight c / 1056) + - 1)%Z in B by lia.
    rewrite inject_Z_plus in B. change (inject_Z (-1)) with (-1)%Q in B.
    apply Zle_of_Qlt. change (inject_Z 1) with 1%Q. lra.
  - intros k K1 Lo Hi. rewrite E2, Qmin_inject_Z.
    apply inject_Z_injective. rewrite Dc.
    rewrite (floor_eq (scrollTop c / 1056) (k - 1));
      [lia | |];
      replace (k - 1)%Z with (k + - 1)%Z by lia;
      rewrite inject_Z_plus; change (inject_Z (-1)) with (-1)%Q; lra.
  - intros Hi. rewrite E2. change 1%Q with (inject_Z 1).
    apply inject_Z_injective. rewrite Dc.
    assert (Qfloor (scrollTop c / 1056) + 1 <= 1)%Z; [| lia].
    pose proof (Qfloor_le (scrollTop c / 1056)) as A.
    apply Zle_of_Qlt. rewrite inject_Z_plus. change (inject_Z 1) with 1%Q.
    lra.
Qed.

Lemma page_bands_witness :
  let c := {| scrollHeight := 3000; scrollTop := 1056 |}%Q in
  ((0 < 1)%Q /\ (1 <= 3)%Z /\ (1 <= 2)%Z
   /\ (1056 * (inject_Z 3 - 1) < scrollHeight c)%Q
   /\ (scrollHeight c <= 1056 * inject_Z 3)%Q
   /\ (1056 * (inject_Z 2 - 1) <= scrollTop c)%Q
   /\ (scrollTop c < 1056 * inject_Z 2)%Q)
  /\ fst (estimate 1%Q c) = 3%Q
  /\ (snd (estimate 1%Q c) == 2)%Q.
Proof.
  cbv zeta.
  assert ((0 < 1)%Q /\ (1 <= 3)%Z /\ (1 <= 2)%Z
          /\ (1056 * (inject_Z 3 - 1) < 3000)%Q
          /\ (3000 <= 1056 * inject_Z 3)%Q
          /\ (1056 * (inject_Z 2 - 1) <= 1056)%Q
          /\ (1056 < 1056 * inject_Z 2)%Q)
    as (P & N1 & K1 & HLo & HHi & TLo & THi)
    by (repeat split; try lia; vm_compute; reflexivity || discriminate).
  destruct (page_bands 1 {| scrollHeight := 3000%Q; scrollTop := 1056%Q |} P)
    as (Count & _ & Current & _).
  split;
    [exact (conj P (conj N1 (conj K1 (conj HLo (conj HHi (conj TLo THi)))))) |].
  split; [exact (Count 3%Z N1 HLo HHi) |].
  rewrite (Current 2%Z K1 TLo THi). reflexivity.
Defined.

(** X19: more content never counts fewer pages, and scrolling further
    down never shows an earlier page (exact arithmetic, positive device
    pixel ratio). *)
Theorem pages_monotone (dpr : Q) (c1 c2 : Container Q) :
  (0 < dpr)%Q ->
  (scrollHeight c1 <= scrollHeight c2)%Q ->
  (fst (estimate dpr c1) <= fst (estimate dpr c2))%Q
  /\ ((scrollTop c1 <= scrollTop c2)%Q ->
      (snd (estimate dpr c1) <= snd (estimate dpr c2))%Q).
Proof.
  intros P H12.
  destruct (pages_exact dpr c1 P) as (pages1 & page1 & E1 & F1 & Dp1 & Dc1).
  destruct (pages_exact dpr c2 P) as (pages2 & page2 & E2 & F2 & Dp2 & Dc2).
  assert (Qceiling (scrollHeight c1 / 1056)
          <= Qceiling (scrollHeight c2 / 1056))%Z as CE.
  { apply Qceiling_resp_le.
    assert (forall q : Q, (q / 1056 == q * (1 # 1056))%Q) as D
      by (intros q; field).
    rewrite !D. lra. }
  split.
  - rewrite E1, E2, <- Zle_Qle. lia.
  - intros T12. rewrite F1, F2, <- Zle_Qle.
    assert (Qfloor (scrollTop c1 / 1056)
            <= Qfloor (scrollTop c2 / 1056))%Z as FE.
    { apply Qfloor_resp_le.
      assert (forall q : Q, (q / 1056 == q * (1 # 1056))%Q) as D
        by (intros q; field).
      rewrite !D. lra. }
    lia.
Qed.

Lemma pages_monotone_witness :
  let c1 := {| scrollHeight := 1056; scrollTop := 0 |}%Q in
  let c2 := {| scrollHeight := 1057; scrollTop := 1056 |}%Q in
  ((0 < 1)%Q /\ (scrollHeight c1 <= scrollHeight c2)%Q
   /\ (scrollTop c1 <= scrollTop c2)%Q)
  /\ estimate 1%Q c1 = (1, 1)%Q /\ estimate 1%Q c2 = (2, 2)%Q
  /\ (fst (estimate 1%Q c1) <= fst (estimate 1%Q c2))%Q
  /\ (snd (estimate 1%Q c1) <= snd (estimate 1%Q c2))%Q.
Proof.
  cbv zeta.
  assert ((0 < 1)%Q /\ (1056 <= 1057)%Q /\ (0 <= 1056)%Q) as (P & H12 & T12)
    by (repeat split; discriminate).
  destruct (pages_monotone 1 {| scrollHeight := 1056%Q; scrollTop := 0%Q |}
              {| scrollHeight := 1057%Q; scrollTop := 1056%Q |} P H12)
    as [A B].
  split; [exact (conj P (conj H12 T12)) |].
  split; [reflexivity |]. split; [reflexivity |].
  exact (conj A (B T12)).
Defined.

(** *** The font size *)

(** X20: the font size stays a whole number between 8 and 72, whatever
    sequence of the two buttons is pressed from the initial 12; pressing
    one button and then the other gives the size back unless the first
    press was stopped by a bound. *)
Theorem fontSize_in_range (buttons : list FontButton) :
  let size := fold_left press buttons 12%Q in
  (8 <= size <= 72)%Q /\ whole size
  /\ ((size + 1 <= 72)%Q ->
      (handleDecreaseFontSize (handleIncreaseFontSize size) == size)%Q)
  /\ ((8 <= size - 1)%Q ->
      (handleIncreaseFontSize (handleDecreaseFontSize size) == size)%Q)
  /\ ((size == 72)%Q -> (handleIncreaseFontSize size == 72)%Q)
  /\ ((size == 8)%Q -> (handleDecreaseFontSize size == 8)%Q).
Proof.
  cbv zeta.
  assert (forall v : Q, (8 <= v <= 72)%Q /\ whole v ->
            (8 <= fold_left press buttons v <= 72)%Q
            /\ whole (fold_left press buttons v)) as Inv.
  { induction buttons as [| b buttons IH]; intros v [R Wh]; cbn;
      [split; assumption |].
    apply IH. destruct b; unfold press, handleIncreaseFontSize,
      handleDecreaseFontSize; cbn [num add sub Math_max Math_min
                                   Exact.exact_number];
      change (inject_Z 72) with 72%Q; change (inject_Z 8) with 8%Q;
      change (inject_Z 1) with 1%Q.
    - split; [RulerFacts.split_minmax; lra |].
      apply whole_min; [apply (whole_inject_Z 72) |].
      assert (v + 1 == v - (-1))%Q as -> by lra.
      apply whole_minus; [assumption | apply (whole_inject_Z (-1))].
    - split; [RulerFacts.split_minmax; lra |].
      apply whole_max; [apply (whole_inject_Z 8) |].
      apply whole_minus; [assumption | apply (whole_inject_Z 1)]. }
  destruct (Inv 12%Q) as [R Wh];
    [split; [split; discriminate | apply (whole_inject_Z 12)] |].
  split; [exact R |]. split; [exact Wh |].
  unfold handleIncreaseFontSize, handleDecreaseFontSize.
  cbn [num add sub Math_max Math_min Exact.exact_number].
  change (inject_Z 72) with 72%Q; change (inject_Z 8) with 8%Q;
    change (inject_Z 1) with 1%Q.
  repeat split; intros B; RulerFacts.split_minmax; lra.
Qed.

Lemma fontSize_in_range_witness :
  let up := repeat Increase 70 in
  fold_left press up 12%Q = 72%Q
  /\ (handleIncreaseFontSize (fold_left press up 12%Q) == 72)%Q
  /\ (handleDecreaseFontSize (handleIncreaseFontSize 12) == 12)%Q
  /\ (handleDecreaseFontSize (fold_left press (repeat Decrease 9) 12%Q) == 8)%Q.
Proof.
  cbv zeta.
  assert (fold_left press (repeat Increase 70) 12%Q = 72%Q) as Top
    by (vm_compute; reflexivity).
  assert (fold_left press (repeat Decrease 9) 12%Q = 8%Q) as Bottom
    by (vm_compute; reflexivity).
  destruct (fontSize_in_range (repeat Increase 70)) as (_ & _ & _ & _ & T & _).
  destruct (fontSize_in_range []) as (_ & _ & U & _ & _ & _).
  destruct (fontSize_in_range (repeat Decrease 9)) as (_ & _ & _ & _ & _ & B).
  split; [exact Top |].
  split; [apply T; rewrite Top; reflexivity |].
  split; [apply U; discriminate |].
  apply B. rewrite Bottom. reflexivity.
Defined.

(** The same on binary64 numbers: from every whole size between 8 and 72
    both buttons give a whole size between 8 and 72. *)
Example fontSize_binary64 :
  forallb
    (fun k : nat =>
       let v := Binary64.of_Z (Z.of_nat k) in
       (handleIncreaseFontSize v
        =? Binary64.of_Z (Z.min 72 (Z.of_nat k + 1)))%float
       && (handleDecreaseFontSize v
           =? Binary64.of_Z (Z.max 8 (Z.of_nat k - 1)))%float)
    (seq 8 65)
  = true.
Proof. vm_compute. reflexivity. Qed.

End PageFacts.

(** ** What the command can do to a transaction *)

Module OutcomeFacts.
Import ProseMirror IndentRuler.

Lemma findTargetDepth_some (from : ResolvedPos) (d t : nat) :
  findTargetDepth from d = Some t ->
  (t <= d)%nat /\ exists n, node from t = Some n /\ isTarget n = true.
Proof.
  induction d as [| d IH]; cbn.
  - destruct (node from 0) as [n |] eqn:E; [| discriminate].
    destruct (isTarget n) eqn:T; [| discriminate].
    intros [= <-]. split; [lia | now exists n].
  - destruct (node from (S d)) as [n |] eqn:E.
    + destruct (isTarget n) eqn:T.
      * intros [= <-]. split; [lia | now exists n].
      * intros F. destruct (IH F) as [L X]. split; [lia | exact X].
    + intros F. destruct (IH F) as [L X]. split; [lia | exact X].
Qed.

(** [$from.before(targetDepth + 1)] does not throw for a depth the loop
    found. *)
Lemma before_target (from : ResolvedPos) (t : nat) :
  findTargetDepth from (depth from) = Some t ->
  exists p, before from (t + 1) = Ok p.
Proof.
  intros F. apply findTargetDepth_some in F as (_ & n & Nd & _).
  unfold before. replace (t + 1 =? 0)%nat with false
    by (symmetry; apply Nat.eqb_neq; lia).
  destruct (t + 1 =? depth from + 1)%nat; [now eexists |].
  replace (t + 1 - 1)%nat with t by lia.
  unfold node in Nd. destruct (path from !! t) as [[[a b] c] |];
    [now eexists | discriminate].
Qed.

Lemma computeAttrs_throws (spec : list (string * option Value))
    (values : gmap string Value) (e : string) :
  computeAttrs spec values = Throw e ->
  exists name, In (name, None) spec /\ values !! name = None.
Proof.
  revert e.
  induction spec as [| [name default] spec IH]; intros e; cbn; [discriminate |].
  destruct (computeAttrs spec values) as [built | e'] eqn:C; cbn.
  - destruct (values !! name) eqn:V; [discriminate |].
    destruct default; [discriminate |].
    intros _. exists name. split; [now left | exact V].
  - intros _. destruct (IH e' eq_refl) as (n & I & V).
    exists n. split; [now right | exact V].
Qed.

(** The outcomes of the command, case by case. *)
Lemma setIndentRuler_cases (schema : string -> NodeSpec)
    (options : Options) (from : ResolvedPos) (tr : Transaction)
    (dispatch : bool) :
  match setIndentRuler schema options from tr dispatch with
  | Ok (false, tr', sent) => tr' = tr /\ sent = None
  | Ok (true, tr', sent) =>
      (exists step, steps tr' = steps tr ++ [step])
      /\ sent = (if dispatch then Some tr' else None)
  | Throw _ =>
      exists targetDepth p n,
        findTargetDepth from (depth from) = Some targetDepth
        /\ before from (targetDepth + 1) = Ok p
        /\ nodeAt schema (doc tr) p = Some n
        /\ (typeName n = "text"
            \/ exists name, In (name, None) (spec_attrs (schema (typeName n)))
                            /\ nodeAttrs n !! name = None)
  end.
Proof.
  unfold setIndentRuler.
  destruct (findTargetDepth from (depth from)) as [t |] eqn:F;
    [| split; reflexivity].
  destruct (before_target from t F) as [p B]. rewrite B. cbn [mbind Result_bind].
  destruct (nodeAt schema (doc tr) p) as [n |] eqn:A; [| split; reflexivity].
  unfold setNodeMarkup. rewrite A. unfold create.
  destruct (String.eqb (typeName n) "text") eqn:T.
  - cbn. exists t, p, n. repeat split; try assumption.
    left. now apply String.eqb_eq.
  - destruct (computeAttrs _ _) as [built | e] eqn:C; cbn.
    + destruct (isLeaf schema n); cbn;
        (split; [eexists; reflexivity | reflexivity]).
    + exists t, p, n. repeat split; try assumption. right.
      apply computeAttrs_throws in C as (name & I & V).
      exists name. split; [exact I |].
      destruct (decide (name = "firstLineIndent")) as [-> | N1];
        [now rewrite lookup_insert in V |].
      rewrite lookup_insert_ne in V by congruence.
      destruct (decide (name = "rightIndent")) as [-> | N2];
        [now rewrite lookup_insert in V |].
      rewrite lookup_insert_ne in V by congruence.
      destruct (decide (name = "leftIndent")) as [-> | N3];
        [now rewrite lookup_insert in V |].
      now rewrite lookup_insert_ne in V by congruence.
Qed.


(** X21: what [setIndentRuler] does to the transaction, for every
    schema, request, selection and transaction.  When it returns false the
    transaction is as it was and nothing is dispatched.  When it returns
    true the transaction has exactly one step more, whether or not there
    is a [dispatch] (so a dry run changes the transaction it is given),
    and it is dispatched exactly when there is one. *)
Theorem setIndentRuler_returns (schema : string -> NodeSpec)
    (options : Options) (from : ResolvedPos) (tr : Transaction)
    (dispatch result : bool) (tr' : Transaction) (sent : option Transaction) :
  setIndentRuler schema options from tr dispatch = Ok (result, tr', sent) ->
  if result
  then (exists step, steps tr' = steps tr ++ [step])
       /\ sent = (if dispatch then Some tr' else None)
  else tr' = tr /\ sent = None.
Proof.
  intros E.
  pose proof (setIndentRuler_cases schema options from tr dispatch) as C.
  rewrite E in C. destruct result; exact C.
Qed.

Lemma setIndentRuler_returns_witness :
  let tr := {| doc := doc_break; steps := [] |} in
  let tr' := {| doc := doc_break; steps := [ReplaceStep 1 2 hardBreak] |} in
  setIndentRuler IndentRuler.schema request cursor_break tr false
  = Ok (true, tr', None)
  /\ (exists step, steps tr' = steps tr ++ [step]).
Proof.
  cbv zeta.
  assert (setIndentRuler IndentRuler.schema request cursor_break
            {| doc := doc_break; steps := [] |} false
          = Ok (true,
                {| doc := doc_break; steps := [ReplaceStep 1 2 hardBreak] |},
                None)) as E
    by (vm_compute; reflexivity).
  split; [exact E |].
  exact (proj1 (setIndentRuler_returns IndentRuler.schema request cursor_break
                  _ false true _ None E)).
Defined.

(** In the schema of this editor every attribute has a default. *)
Lemma schema_defaults (type name : string) :
  ~ In (name, None) (spec_attrs (IndentRuler.schema type)).
Proof.
  unfold IndentRuler.schema, globalAttributes.
  repeat match goal with
         | |- context [if ?b then _ else _] => destruct b
         end;
    cbn; intuition congruence.
Qed.



End OutcomeFacts.

(** ** Dragging on a track of whole width *)

Module DragFacts.
Import Ruler RulerView RulerFacts ViewFacts.
Local Open Scope Q_scope.

(** Whole, non-negative indents that leave the gap. *)
Lemma next_valid (W : Q) (s : IndentState Q) (m : Marker) (x : Q) :
  whole W ->
  whole (leftIndent s) /\ whole (rightIndent s)
  /\ 0 <= leftIndent s /\ 0 <= rightIndent s /\ gap W s ->
  let s' := setFromDrag_next W s m x in
  whole (leftIndent s') /\ whole (rightIndent s')
  /\ 0 <= leftIndent s' /\ 0 <= rightIndent s' /\ gap W s'.
Proof.
  intros WW (WL & WR & L0 & R0 & G). cbv zeta. unfold gap in *.
  destruct m.
  - destruct (left_next W s x) as [EL _]. cbv zeta in EL.
    assert (rightIndent (setFromDrag_next W s mLeft x) = rightIndent s) as ->
      by reflexivity.
    rewrite EL.
    set (target := clamp x 0 (Qmax 0 (W - rightIndent s - 12))) in *.
    assert (0 <= target <= W - rightIndent s - 12) as [T0 T1]
      by (subst target; unfold clamp; cbn; split; split_minmax; lra).
    split; [apply whole_inject_Z |]. split; [assumption |].
    split; [now apply round_nonneg |]. split; [assumption |].
    apply round_le_whole; [assumption |].
    apply whole_minus; [now apply whole_minus | apply (whole_inject_Z 12)].
  - assert (leftIndent (setFromDrag_next W s mFirstLine x) = leftIndent s)
      as -> by reflexivity.
    assert (rightIndent (setFromDrag_next W s mFirstLine x) = rightIndent s)
      as -> by reflexivity.
    repeat split; assumption.
  - destruct (right_next W s x) as [ER _]. cbv zeta in ER.
    assert (leftIndent (setFromDrag_next W s mRight x) = leftIndent s) as ->
      by reflexivity.
    rewrite ER.
    set (target := clamp x (Qmin W (leftIndent s + 12)) W) in *.
    assert (leftIndent s + 12 <= target <= W) as [T0 T1]
      by (subst target; unfold clamp; cbn; split; split_minmax; lra).
    assert (inject_Z (Exact.round (W - target)) <= W - leftIndent s - 12) as B.
    { apply round_le_whole; [lra |].
      apply whole_minus; [now apply whole_minus | apply (whole_inject_Z 12)]. }
    split; [assumption |]. split; [apply whole_inject_Z |].
    split; [assumption |]. split; [apply round_nonneg; lra | lra].
Qed.

(** X23: dragging never brings the markers closer than [minGap].  On a
    mounted track whose width is a whole number of pixels and at least
    [minGap], after any sequence of pointer-downs, pointer-moves and
    pointer-ups, of any markers and pointers, to any positions (fractions
    of pixels and positions off the track included), the left and the
    right indent are whole and non-negative and leave the gap, and
    everything sent to the editor does. *)
Theorem drag_keeps_gap (W left : Q) (Number : string -> Q)
    (events : list (Event Q)) :
  whole W -> 12 <= W ->
  forallb isPointerEvent events = true ->
  let track := {| rect_left := left; rect_width := W |} in
  let st := run Number events (update (initial (Some track) (Some []))) in
  let valid := fun s : IndentState Q =>
    whole (leftIndent s) /\ whole (rightIndent s)
    /\ 0 <= leftIndent s /\ 0 <= rightIndent s /\ gap W s in
  trackWidth st = W
  /\ valid (indent st)
  /\ exists sent, editor st = Some sent /\ Forall valid sent.
Proof.
  intros WW W12 Ptr. cbv zeta.
  set (valid := fun s : IndentState Q =>
         whole (leftIndent s) /\ whole (rightIndent s)
         /\ 0 <= leftIndent s /\ 0 <= rightIndent s /\ gap W s).
  set (Inv := fun st : State Q =>
         trackWidth st = W /\ valid (indent st)
         /\ exists sent, editor st = Some sent /\ Forall valid sent).
  assert (forall ty x st, Inv st -> Inv (setFromDrag ty x st)) as Drag.
  { intros ty x st (TW & V & sent & E & A). unfold setFromDrag, applyToEditor.
    cbn [Ruler.editor]. rewrite E, TW.
    pose proof (next_valid W (indent st) ty x WW V) as V'. cbv zeta in V'.
    unfold Inv. cbn [trackWidth indent Ruler.editor].
    split; [reflexivity |]. split; [exact V' |].
    eexists. split; [reflexivity |].
    apply Forall_app. split; [exact A | now constructor]. }
  assert (forall st ty x tref dr dg ad pc,
            Inv st ->
            Inv (setFromDrag ty x
                   {| trackRef := tref; dragStateRef := dr;
                      isDraggingRef := dg; trackWidth := trackWidth st;
                      indent := indent st; activeDragType := ad;
                      pointerCapture := pc; editor := editor st |})) as Down
    by (intros; apply Drag; assumption).
  assert (Inv (update (initial (Some {| rect_left := left; rect_width := W |})
                         (Some [])))) as I0.
  { unfold Inv, valid, gap. cbn.
    split; [reflexivity |].
    split; [| exists []; split; [reflexivity | constructor]].
    change (inject_Z 0) with 0.
    repeat split; try apply (whole_inject_Z 0); lra. }
  revert Ptr I0.
  generalize (update (initial (Some {| rect_left := left; rect_width := W |})
                        (Some []))).
  unfold run. induction events as [| e events IH]; intros st Ptr I0;
    cbn [fold_left]; [exact I0 |].
  cbn [forallb] in Ptr. apply andb_true_iff in Ptr as [Pe Ptr].
  apply IH; [exact Ptr |].
  destruct e as [m ev | ev | ev | p h | rect]; cbn [step];
    try discriminate Pe.
  - unfold handleMarkerPointerDown. destruct (trackRef st); [| exact I0].
    now apply Down.
  - unfold handleMarkerPointerMove.
    destruct (type (dragStateRef st)); [| exact I0].
    destruct (other_pointer (dragStateRef st) ev); [exact I0 |].
    now apply Drag.
  - unfold handleMarkerPointerUp.
    destruct (other_pointer (dragStateRef st) ev); exact I0.
Qed.

Lemma drag_keeps_gap_witness :
  let Number := fun _ : string => 0 in
  let events :=
    [PointerDown mRight {| event_pointerId := 1; clientX := 1241 # 2 |};
     PointerUp {| event_pointerId := 1; clientX := 1241 # 2 |};
     PointerDown mLeft {| event_pointerId := 2; clientX := 4000 |};
     PointerMove {| event_pointerId := 2; clientX := 1601 # 4 |}] in
  let st :=
    run Number events
      (update (initial (Some {| rect_left := 20; rect_width := 816 |})
                 (Some []))) in
  (whole 816 /\ 12 <= 816 /\ forallb isPointerEvent events = true)
  /\ editor st
     = Some [{| leftIndent := 0; rightIndent := 216; firstLineIndent := 0 |};
             {| leftIndent := 588; rightIndent := 216;
                firstLineIndent := -588 |};
             {| leftIndent := 380; rightIndent := 216;
                firstLineIndent := -380 |}]
  /\ gap 816 (indent st).
Proof.
  cbv zeta.
  set (events :=
         [PointerDown mRight {| event_pointerId := 1; clientX := 1241 # 2 |};
          PointerUp {| event_pointerId := 1; clientX := 1241 # 2 |};
          PointerDown mLeft {| event_pointerId := 2; clientX := 4000 |};
          PointerMove {| event_pointerId := 2; clientX := 1601 # 4 |}]).
  assert (whole 816 /\ 12 <= 816) as [WW W12] by (split; qdecide).
  assert (forallb isPointerEvent events = true) as Ptr by reflexivity.
  split; [exact (conj WW (conj W12 Ptr)) |].
  split; [vm_compute; reflexivity |].
  exact (proj2 (proj2 (proj2 (proj2 (proj1 (proj2
           (drag_keeps_gap 816 20 (fun _ => 0) events WW W12 Ptr))))))).
Defined.

End DragFacts.
